(** * A shallow embedding of the yenc decoder (yenc.go)

    Bytes are integers in [Z] with the 8-bit wrap-around written out, Go
    strings and byte slices are lists of bytes, [int], [int64] and [uint32]
    are [Z] with their range made explicit where the code depends on it
    ([int] is taken to be 64 bits wide).  The decoder is a record that is
    threaded through the methods, each returning the error it would return in
    Go together with the state it leaves behind.  [parseHeaders], which
    nothing in the package calls, is modelled apart from the decoder. *)

From Stdlib Require Import String Ascii ZArith List Bool Lia.
Import ListNotations.
Open Scope Z_scope.

Set Implicit Arguments.

(** ** Bytes and byte strings *)

Definition bytes := list Z.

Fixpoint bytes_of_string (s : string) : bytes :=
  match s with
  | EmptyString => []
  | String a s' => Z.of_N (N_of_ascii a) :: bytes_of_string s'
  end.

(** Byte-string literals are written [bs "=ybegin"]. *)
Arguments bytes_of_string s%_string.
Abbreviation bs := bytes_of_string.

(** [len(s)] *)
Definition len {A} (s : list A) : Z := Z.of_nat (length s).

Fixpoint bytes_eqb (s t : bytes) : bool :=
  match s, t with
  | [], [] => true
  | x :: s', y :: t' => (x =? y) && bytes_eqb s' t'
  | _, _ => false
  end.

(** [len(s) >= len(p) && s[:len(p)] == p] *)
Fixpoint has_prefix (p s : bytes) : bool :=
  match p, s with
  | [], _ => true
  | x :: p', y :: s' => (x =? y) && has_prefix p' s'
  | _ :: _, [] => false
  end.

(** [uint8] subtraction and the [& 255] of the source. *)
Definition sub8 (a b : Z) : Z := (a - b) mod 256.
Definition and8 (a m : Z) : Z := Z.land a m.

(** ** The parts of package strings and bytes the decoder uses *)

(** [strings.Split(s, sep)] for a one-byte separator: the pieces between the
    separators, [len = count + 1], so the empty string gives one empty piece. *)
Fixpoint Split (s : bytes) (sep : Z) : list bytes :=
  match s with
  | [] => [[]]
  | c :: s' =>
      if c =? sep then [] :: Split s' sep
      else match Split s' sep with
           | piece :: rest => (c :: piece) :: rest
           | [] => [[c]]
           end
  end.

(** [strings.Index(s, sep) ], returned as the text before and after the first
    occurrence of [sep]. *)
Fixpoint cut (s sep : bytes) : option (bytes * bytes) :=
  if has_prefix sep s then Some ([], skipn (length sep) s)
  else match s with
       | [] => None
       | c :: s' =>
           match cut s' sep with
           | Some (before, after) => Some (c :: before, after)
           | None => None
           end
       end.

(** [strings.SplitN(s, sep, 2)] *)
Definition SplitN2 (s sep : bytes) : list bytes :=
  match cut s sep with
  | Some (before, after) => [before; after]
  | None => [s]
  end.

(** The white space of [unicode.IsSpace], as the UTF-8 byte sequences that
    decode to it: the six ASCII characters, U+0085, U+00A0, U+1680,
    U+2000..U+200A, U+2028, U+2029, U+202F, U+205F and U+3000.  Any other
    byte sequence decodes to a rune that is not white space (an invalid one to
    U+FFFD of width one).  [space_width s] is the width of the white-space
    rune [s] starts with, or [0]. *)
Definition ascii_space (c : Z) : bool :=
  (c =? 9) || (c =? 10) || (c =? 11) || (c =? 12) || (c =? 13) || (c =? 32).

Definition space_width (s : bytes) : nat :=
  match s with
  | c :: s1 =>
      if ascii_space c then 1%nat
      else match s1 with
           | c1 :: s2 =>
               if (c =? 194) && ((c1 =? 133) || (c1 =? 160)) then 2%nat
               else match s2 with
                    | c2 :: _ =>
                        if (c =? 225) && (c1 =? 154) && (c2 =? 128) then 3%nat
                        else if (c =? 226) && (c1 =? 128)
                                && (((128 <=? c2) && (c2 <=? 138))
                                    || (c2 =? 168) || (c2 =? 169) || (c2 =? 175))
                             then 3%nat
                        else if (c =? 226) && (c1 =? 129) && (c2 =? 159) then 3%nat
                        else if (c =? 227) && (c1 =? 128) && (c2 =? 128) then 3%nat
                        else 0%nat
                    | [] => 0%nat
                    end
           | [] => 0%nat
           end
  | [] => 0%nat
  end.

(** The same test on the reversed string, for trimming on the right: the last
    rune of a string is white space exactly when the string ends with one of
    the sequences above. *)
Definition space_width_rev (r : bytes) : nat :=
  match r with
  | c :: r1 =>
      if ascii_space c then 1%nat
      else match r1 with
           | c1 :: r2 =>
               if space_width [c1; c] =? 2 then 2
               else match r2 with
                    | c2 :: _ => if space_width [c2; c1; c] =? 3 then 3 else 0
                    | [] => 0
                    end
           | [] => 0
           end
  | [] => 0
  end%nat.

Fixpoint trim_left_fuel (n : nat) (s : bytes) : bytes :=
  match n with
  | O => s
  | S n' =>
      match space_width s with
      | O => s
      | w => trim_left_fuel n' (skipn w s)
      end
  end.

Fixpoint trim_left_rev_fuel (n : nat) (r : bytes) : bytes :=
  match n with
  | O => r
  | S n' =>
      match space_width_rev r with
      | O => r
      | w => trim_left_rev_fuel n' (skipn w r)
      end
  end.

(** Each round removes at least one byte, so [length s] rounds suffice. *)
Definition TrimLeftSpace (s : bytes) : bytes := trim_left_fuel (length s) s.
Definition TrimRightSpace (s : bytes) : bytes :=
  rev (trim_left_rev_fuel (length s) (rev s)).

(** [strings.TrimSpace] *)
Definition TrimSpace (s : bytes) : bytes := TrimRightSpace (TrimLeftSpace s).

(** [bytes.TrimRight(line, "\r\n")] *)
Fixpoint drop_crlf (r : bytes) : bytes :=
  match r with
  | c :: r' => if (c =? 13) || (c =? 10) then drop_crlf r' else r
  | [] => []
  end.

Definition TrimRight_crlf (line : bytes) : bytes := rev (drop_crlf (rev line)).

(** ** Package strconv *)

Inductive NumError := ErrSyntax | ErrRange.

Definition maxUint64 : Z := 18446744073709551615.
Definition wrap64 (n : Z) : Z := n mod 2 ^ 64.

Definition lower (c : Z) : Z := Z.lor c 32.

(** The digit loop of [strconv.ParseUint(s, base, 64)] for a base given
    explicitly (no prefix, no underscores): it returns at the first byte that
    is not a digit of the base, and at the first overflow. *)
Fixpoint parse_digits (base : Z) (n : Z) (s : bytes) : Z * option NumError :=
  match s with
  | [] => (n, None)
  | c :: s' =>
      if (48 <=? c) && (c <=? 57) || (97 <=? lower c) && (lower c <=? 122) then
        let d := if (48 <=? c) && (c <=? 57) then c - 48 else lower c - 97 + 10 in
        if base <=? d then (0, Some ErrSyntax)
        else if maxUint64 / base + 1 <=? n then (maxUint64, Some ErrRange)
        else
          let n := wrap64 (n * base) in
          let n1 := wrap64 (n + d) in
          if (n1 <? n) || (maxUint64 <? n1) then (maxUint64, Some ErrRange)
          else parse_digits base n1 s'
      else (0, Some ErrSyntax)
  end.

Definition ParseUint (s : bytes) (base : Z) : Z * option NumError :=
  match s with
  | [] => (0, Some ErrSyntax)
  | _ => parse_digits base 0 s
  end.

(** [strconv.ParseInt(s, 10, 64)] *)
Definition ParseInt (s : bytes) : Z * option NumError :=
  match s with
  | [] => (0, Some ErrSyntax)
  | c :: s' =>
      let neg := c =? 45 in
      let digits := if (c =? 43) || (c =? 45) then s' else s in
      match ParseUint digits 10 with
      | (_, Some ErrSyntax) => (0, Some ErrSyntax)
      | (un, _) =>
          let cutoff := 2 ^ 63 in
          if negb neg && (cutoff <=? un) then (cutoff - 1, Some ErrRange)
          else if neg && (cutoff <? un) then (- cutoff, Some ErrRange)
          else (if neg then - un else un, None)
      end
  end.

(** [strconv.Atoi]: [ParseInt(s, 10, 0)] converted to [int]; its fast path for
    short strings computes the same result. *)
Definition Atoi (s : bytes) : Z * option NumError := ParseInt s.

(** ** Package hash/crc32, IEEE polynomial *)

Definition IEEE : Z := 0xedb88320.

Fixpoint crc_shift (k : nat) (crc : Z) : Z :=
  match k with
  | O => crc
  | S k' =>
      crc_shift k'
        (if Z.land crc 1 =? 1 then Z.lxor (Z.shiftr crc 1) IEEE else Z.shiftr crc 1)
  end.

(** Entry [i] of the table [simpleMakeTable(IEEE)] fills in. *)
Definition IEEETable (i : Z) : Z := crc_shift 8 i.

Definition not32 (crc : Z) : Z := Z.lxor crc 0xffffffff.

(** [crc32.Update(crc, IEEETable, p)], in the byte-at-a-time form every
    implementation of the package agrees with. *)
Definition crc_bytes (crc : Z) (p : bytes) : Z :=
  fold_left (fun crc v => Z.lxor (IEEETable (Z.lxor (Z.land crc 255) v)) (Z.shiftr crc 8))
            p crc.

Definition Update (crc : Z) (p : bytes) : Z := not32 (crc_bytes (not32 crc) p).

(** A [hash.Hash32] from [crc32.NewIEEE()] is its running checksum: [Write]
    is [Update] and [Sum32] reads it. *)
Definition NewIEEE : Z := 0.
Definition ChecksumIEEE (data : bytes) : Z := Update 0 data.

(** ** Errors *)

(** The error values the decoder handles: [io.EOF], any other error of the
    underlying reader, and one constructor per [fmt.Errorf] of the source with
    the values it formats. *)
Inductive error :=
| EOF
| ErrReader
| ErrBodySize (got expected : Z)
| ErrPartCRC (number expected got : Z)
| ErrCRC (expected got : Z)
| ErrOutOfOrder (expected got : Z)
| ErrNoParts.

Definition is_EOF (e : error) : bool :=
  match e with EOF => true | _ => false end.

(** ** The buffered input

    An [io.Reader] is the bytes it delivers and the error it ends with
    ([io.EOF] for a stream that simply ends), which it keeps returning. *)
Record io_Reader := { stream : bytes; err : error }.

Definition NewStringReader (s : bytes) : io_Reader := {| stream := s; err := EOF |}.

(** The decoder only ever calls [ReadString('\n')] and [ReadBytes('\n')] on
    its [bufio.Reader], so the reader is kept as the results those calls are
    going to give: the lines still unread, each ending in its line feed, then
    the bytes after the last line feed together with the reader's error. *)
Record Reader := { lines : list bytes; rest : bytes; fail : error }.

Fixpoint split_lines (input : bytes) : list bytes * bytes :=
  match input with
  | [] => ([], [])
  | c :: input' =>
      let (ls, r) := split_lines input' in
      if c =? 10 then ([c] :: ls, r)
      else match ls with
           | l :: ls' => ((c :: l) :: ls', r)
           | [] => ([], c :: r)
           end
  end.

Definition NewReader (input : io_Reader) : Reader :=
  let (ls, r) := split_lines (stream input) in
  {| lines := ls; rest := r; fail := err input |}.

(** The reader after it has returned its error. *)
Definition drained (r : Reader) : Reader :=
  {| lines := []; rest := []; fail := fail r |}.

Definition unread (ls : list bytes) (r : Reader) : Reader :=
  {| lines := ls; rest := rest r; fail := fail r |}.

Definition ReadBytes (r : Reader) : bytes * option error * Reader :=
  match lines r with
  | l :: ls => (l, None, unread ls r)
  | [] => (rest r, Some (fail r), drained r)
  end.

(** ** Part *)

Module Part.

Record t := mk {
  Number : Z;      (* part num *)
  hsize : Z;       (* size from header *)
  Size : Z;        (* size from part trailer *)
  Begin : Z;       (* file boundarys *)
  End_ : Z;
  Name : bytes;    (* filename from yenc header *)
  cols : Z;        (* line length of part *)
  crc32 : Z;       (* crc check for this part *)
  crcHash : Z;
  Body : bytes     (* the decoded data *)
}.

(** [new(Part)] *)
Definition new : t := mk 0 0 0 0 0 [] 0 0 NewIEEE [].

Definition set_Number (p : t) (v : Z) : t :=
  mk v (hsize p) (Size p) (Begin p) (End_ p) (Name p) (cols p) (crc32 p) (crcHash p) (Body p).
Definition set_hsize (p : t) (v : Z) : t :=
  mk (Number p) v (Size p) (Begin p) (End_ p) (Name p) (cols p) (crc32 p) (crcHash p) (Body p).
Definition set_Size (p : t) (v : Z) : t :=
  mk (Number p) (hsize p) v (Begin p) (End_ p) (Name p) (cols p) (crc32 p) (crcHash p) (Body p).
Definition set_Begin (p : t) (v : Z) : t :=
  mk (Number p) (hsize p) (Size p) v (End_ p) (Name p) (cols p) (crc32 p) (crcHash p) (Body p).
Definition set_End (p : t) (v : Z) : t :=
  mk (Number p) (hsize p) (Size p) (Begin p) v (Name p) (cols p) (crc32 p) (crcHash p) (Body p).
Definition set_Name (p : t) (v : bytes) : t :=
  mk (Number p) (hsize p) (Size p) (Begin p) (End_ p) v (cols p) (crc32 p) (crcHash p) (Body p).
Definition set_cols (p : t) (v : Z) : t :=
  mk (Number p) (hsize p) (Size p) (Begin p) (End_ p) (Name p) v (crc32 p) (crcHash p) (Body p).
Definition set_crc32 (p : t) (v : Z) : t :=
  mk (Number p) (hsize p) (Size p) (Begin p) (End_ p) (Name p) (cols p) v (crcHash p) (Body p).
Definition set_crcHash (p : t) (v : Z) : t :=
  mk (Number p) (hsize p) (Size p) (Begin p) (End_ p) (Name p) (cols p) (crc32 p) v (Body p).
Definition set_Body (p : t) (v : bytes) : t :=
  mk (Number p) (hsize p) (Size p) (Begin p) (End_ p) (Name p) (cols p) (crc32 p) (crcHash p) v.

Definition validate (p : t) : option error :=
  (* length checks *)
  if negb (len (Body p) =? Size p) then Some (ErrBodySize (len (Body p)) (Size p))
  (* crc check *)
  else if (0 <? crc32 p) && negb (crcHash p =? crc32 p)
       then Some (ErrPartCRC (Number p) (crc32 p) (crcHash p))
  else None.

End Part.

Abbreviation Part := Part.t.

(** ** Slices updated in place *)

(** [line[i]] and [line[j] = v] for indices within the slice, which is all
    the line decoder uses. *)
Definition index (line : bytes) (i : Z) : Z := nth (Z.to_nat i) line 0.

Fixpoint store_nat (line : bytes) (j : nat) (v : Z) : bytes :=
  match line, j with
  | [], _ => []
  | _ :: line', O => v :: line'
  | c :: line', S j' => c :: store_nat line' j' v
  end.

Definition store (line : bytes) (j : Z) (v : Z) : bytes := store_nat line (Z.to_nat j) v.

(** ** decoder *)

Module decoder.

Record t := mk {
  buf : Reader;            (* the buffered input *)
  multipart : bool;        (* whether we are decoding multipart *)
  total : Z;               (* numer of parts if given *)
  parts : list Part;       (* list of parts *)
  part : Part;             (* active part *)
  crc32 : Z;               (* overall crc check *)
  crcHash : Z;
  awaitingSpecial : bool   (* are we waiting for an escaped char *)
}.

(** The parts of the list are never written to once appended (each round of
    [run] allocates the next active part afresh), so the pointers of the
    source are modelled by the values they point to. *)

Definition set_buf (d : t) (v : Reader) : t :=
  mk v (multipart d) (total d) (parts d) (part d) (crc32 d) (crcHash d) (awaitingSpecial d).
Definition set_multipart (d : t) (v : bool) : t :=
  mk (buf d) v (total d) (parts d) (part d) (crc32 d) (crcHash d) (awaitingSpecial d).
Definition set_total (d : t) (v : Z) : t :=
  mk (buf d) (multipart d) v (parts d) (part d) (crc32 d) (crcHash d) (awaitingSpecial d).
Definition set_parts (d : t) (v : list Part) : t :=
  mk (buf d) (multipart d) (total d) v (part d) (crc32 d) (crcHash d) (awaitingSpecial d).
Definition set_part (d : t) (v : Part) : t :=
  mk (buf d) (multipart d) (total d) (parts d) v (crc32 d) (crcHash d) (awaitingSpecial d).
Definition set_crc32 (d : t) (v : Z) : t :=
  mk (buf d) (multipart d) (total d) (parts d) (part d) v (crcHash d) (awaitingSpecial d).
Definition set_crcHash (d : t) (v : Z) : t :=
  mk (buf d) (multipart d) (total d) (parts d) (part d) (crc32 d) v (awaitingSpecial d).
Definition set_awaitingSpecial (d : t) (v : bool) : t :=
  mk (buf d) (multipart d) (total d) (parts d) (part d) (crc32 d) (crcHash d) v.

(** A method that returns an error: the error, and the decoder it leaves. *)
Definition action := t -> option error * t.

Definition and_then (f g : action) : action :=
  fun d => match f d with
           | (Some e, d') => (Some e, d')
           | (None, d') => g d'
           end.

Infix ">>" := and_then (at level 61, left associativity).

Definition validate (d : t) : option error :=
  if (0 <? crc32 d) && negb (crcHash d =? crc32 d)
  then Some (ErrCRC (crc32 d) (crcHash d))
  else None.

(** The loop that reads lines until one starts with [marker]: the line found
    and the lines after it, or nothing when the reader gives out first. *)
Fixpoint find_line (marker : bytes) (ls : list bytes) : option (bytes * list bytes) :=
  match ls with
  | [] => None
  | s :: ls' => if has_prefix marker s then Some (s, ls') else find_line marker ls'
  end.

(** The [switch kv[0]] of [readHeader], for [kv[0] = key] and
    [kv[1] = value]. *)
Definition headerSwitch (d : t) (key value : bytes) : t :=
  if bytes_eqb key (bs "size") then
    set_part d (Part.set_hsize (part d) (fst (ParseInt value)))
  else if bytes_eqb key (bs "line") then
    set_part d (Part.set_cols (part d) (fst (Atoi value)))
  else if bytes_eqb key (bs "part") then
    set_multipart (set_part d (Part.set_Number (part d) (fst (Atoi value)))) true
  else if bytes_eqb key (bs "total") then
    set_total d (fst (Atoi value))
  else d.

(** One round of the [for] over the tokens of the [=ybegin] line. *)
Definition headerField (d : t) (token : bytes) : t :=
  match Split (TrimSpace token) 61 with
  | key :: value :: _ => headerSwitch d key value
  | _ => d
  end.

Definition readHeader : action := fun d =>
  (* find the start of the header *)
  match find_line (bs "=ybegin") (lines (buf d)) with
  | None => (Some EOF, set_buf d (drained (buf d)))
  | Some (s, ls) =>
      let d := set_buf d (unread ls (buf d)) in
      (* split on name= to get name first *)
      let pieces := SplitN2 (skipn 7 s) (bs "name=") in
      let d := match pieces with
               | _ :: name :: _ => set_part d (Part.set_Name (part d) (TrimSpace name))
               | _ => d
               end in
      (* split on sapce for other headers *)
      (None, fold_left headerField (Split (hd [] pieces) 32) d)
  end.

Definition partHeaderSwitch (d : t) (key value : bytes) : t :=
  if bytes_eqb key (bs "begin") then
    set_part d (Part.set_Begin (part d) (fst (ParseInt value)))
  else if bytes_eqb key (bs "end") then
    set_part d (Part.set_End (part d) (fst (ParseInt value)))
  else d.

Definition partHeaderField (d : t) (token : bytes) : t :=
  match Split (TrimSpace token) 61 with
  | key :: value :: _ => partHeaderSwitch d key value
  | _ => d
  end.

Definition readPartHeader : action := fun d =>
  match find_line (bs "=ypart") (lines (buf d)) with
  | None => (Some (fail (buf d)), set_buf d (drained (buf d)))
  | Some (s, ls) =>
      let d := set_buf d (unread ls (buf d)) in
      (None, fold_left partHeaderField (Split (skipn 6 s) 32) d)
  end.

(** The [switch kv[0]] of [parseTrailer]. *)
Definition trailerSwitch (key value : bytes) : action := fun d =>
  if bytes_eqb key (bs "size") then
    (None, set_part d (Part.set_Size (part d) (fst (ParseInt value))))
  else if bytes_eqb key (bs "pcrc32") then
    match ParseUint value 16 with
    | (crc64, None) => (None, set_part d (Part.set_crc32 (part d) (crc64 mod 2 ^ 32)))
    | (_, Some _) => (None, d)
    end
  else if bytes_eqb key (bs "crc32") then
    match ParseUint value 16 with
    | (crc64, None) => (None, set_crc32 d (crc64 mod 2 ^ 32))
    | (_, Some _) => (None, d)
    end
  else if bytes_eqb key (bs "part") then
    let partNum := fst (Atoi value) in
    if negb (partNum =? Part.Number (part d))
    then (Some (ErrOutOfOrder (Part.Number (part d)) partNum), d)
    else (None, d)
  else (None, d).

(** One round of the [for] over the tokens of the [=yend] line. *)
Definition trailerField (token : bytes) : action := fun d =>
  match Split (TrimSpace token) 61 with
  | key :: value :: _ => trailerSwitch key value d
  | _ => (None, d)
  end.

Fixpoint parseTrailer_loop (tokens : list bytes) : action := fun d =>
  match tokens with
  | [] => (None, d)
  | token :: tokens' => (trailerField token >> parseTrailer_loop tokens') d
  end.

Definition parseTrailer (line : bytes) : action :=
  parseTrailer_loop (Split line 32).

(** The loop of [decode]: [n] bytes of the line are still to be read, [i] is
    the read cursor and [j] the write cursor. *)
Fixpoint decode_loop (n : nat) (line : bytes) (i j : Z) (awaiting : bool)
  : bytes * Z * Z * bool :=
  match n with
  | O => (line, i, j, awaiting)
  | S n' =>
      if awaiting then
        (* escaped chars yenc42+yenc64 *)
        let line := store line j (and8 (sub8 (and8 (sub8 (index line i) 42) 255) 64) 255) in
        decode_loop n' line (i + 1) (j + 1) false
      else if index line i =? 61 then
        (* if escape char - then skip and backtrack j *)
        decode_loop n' line (i + 1) (j - 1 + 1) true
      else
        (* normal char, yenc42 *)
        let line := store line j (and8 (sub8 (index line i) 42) 255) in
        decode_loop n' line (i + 1) (j + 1) false
  end.

Definition decode (d : t) (line : bytes) : bytes * t :=
  let '(line', i, j, awaiting) := decode_loop (length line) line 0 0 (awaitingSpecial d) in
  (* return the new (possibly shorter) slice *)
  (firstn (Z.to_nat (len line - (i - j))) line', set_awaitingSpecial d awaiting).

(** The decoding of one line of the body, below the [=yend] check. *)
Definition bodyLine (d : t) (line : bytes) : t :=
  let (b, d) := decode d line in
  (* update hashs *)
  let d := set_part d (Part.set_crcHash (part d) (Update (Part.crcHash (part d)) b)) in
  let d := set_crcHash d (Update (crcHash d) b) in
  (* decode *)
  set_part d (Part.set_Body (part d) (Part.Body (part d) ++ b)).

(** The loop of [readBody] over the lines still unread. *)
Fixpoint readBody_loop (ls : list bytes) : action := fun d =>
  match ls with
  | [] => (Some (fail (buf d)), set_buf d (drained (buf d)))
  | line :: ls' =>
      (* strip linefeeds (some use CRLF some LF) *)
      let line := TrimRight_crlf line in
      (* check for =yend *)
      if has_prefix (bs "=yend") line then
        parseTrailer line (set_buf d (unread ls' (buf d)))
      else
        readBody_loop ls' (bodyLine d line)
  end.

Definition readBody : action := fun d =>
  (* ready the part body *)
  let d := set_part d (Part.set_Body (part d) []) in
  (* reset special *)
  let d := set_awaitingSpecial d false in
  (* setup crc hash *)
  let d := set_part d (Part.set_crcHash (part d) NewIEEE) in
  readBody_loop (lines (buf d)) d.

(** The first statements of a round of [run]: a new part and its headers. *)
Definition headers : action :=
  (fun d => (None, set_part d Part.new))      (* create a part *)
  >> readHeader                                (* read the header *)
  >> (fun d => if multipart d then readPartHeader d else (None, d)).

(** One round of the loop of [run]. *)
Definition round : action :=
  headers
  >> readBody                                  (* decode the part body *)
  >> (fun d => (None, set_parts d (parts d ++ [part d])))   (* add part to list *)
  >> (fun d => (Part.validate (part d), d)).   (* validate part *)

(** The loop of [run] only ends by returning an error; [fuel] bounds the
    rounds, and a result without an error stands for a loop cut short (there
    is none when the fuel exceeds the number of unread lines, see
    [run_returns_error]). *)
Fixpoint run_loop (fuel : nat) : action := fun d =>
  match fuel with
  | O => (None, d)
  | S fuel' => (round >> run_loop fuel') d
  end.

Definition run : action := fun d =>
  (* init hash *)
  let d := set_crcHash d NewIEEE in
  run_loop (S (length (lines (buf d)))) d.

(** [&decoder{buf: bufio.NewReader(input)}] *)
Definition new (input : io_Reader) : t :=
  mk (NewReader input) false 0 [] Part.new 0 NewIEEE false.

End decoder.

Abbreviation decoder := decoder.t.

Import decoder.

Inductive result := Ok (p : Part) | Err (e : error).

(** The statements of [Decode] after the call of [run]. *)
Definition Decode_parts (d : decoder) : result :=
  match decoder.parts d with
  | [] => Err ErrNoParts
  | first :: _ =>
      (* validate multipart only if all parts are present *)
      if negb (decoder.multipart d)
         || (len (decoder.parts d) =? Part.Number (last (decoder.parts d) Part.new))
      then match decoder.validate d with
           | Some e => Err e
           | None => Ok first
           end
      else Ok first
  end.

(** return a single part from yenc data *)
Definition Decode (input : io_Reader) : result :=
  let (e, d) := decoder.run (decoder.new input) in
  match e with
  | Some e' => if negb (is_EOF e') then Err e' else Decode_parts d
  | None => Decode_parts d
  end.

(** ** The line decoder as the specification words it

    Byte by byte: after an escape marker the byte is shifted twice, an escape
    marker is dropped and remembered, any other byte is shifted once. *)
Fixpoint decode_spec (awaiting : bool) (line : bytes) : bytes * bool :=
  match line with
  | [] => ([], awaiting)
  | c :: line' =>
      if awaiting then
        let (out, a) := decode_spec false line' in
        (((c - 42) mod 256 - 64) mod 256 :: out, a)
      else if c =? 61 then decode_spec true line'
      else
        let (out, a) := decode_spec false line' in
        ((c - 42) mod 256 :: out, a)
  end.

(** ** Notions the properties are stated with *)

(** The bytes [bytes.TrimRight(line, "\r\n")] strips. *)
Definition line_end (c : Z) : bool := (c =? 13) || (c =? 10).

(** A line as read from the input that [readBody] decodes, rather than takes
    for the trailer. *)
Definition body_line (raw : bytes) : bool :=
  negb (has_prefix (bs "=yend") (TrimRight_crlf raw)).

(** The body of the part a successful [Decode] returns. *)
Definition Body_of (r : result) : option bytes :=
  match r with
  | Ok p => Some (Part.Body p)
  | Err _ => None
  end.

(** ** The encoder of the round trip

    The repository is a decoder only.  The round trip is stated against the
    encoder the specification describes: add 42 modulo 256 to each byte, and
    write a result that would come out as NUL, LF, CR or the escape marker
    [=] as [=] followed by the result plus 64 modulo 256. *)

(** The results that are escaped. *)
Definition critical (e : Z) : bool := (e =? 0) || (e =? 10) || (e =? 13) || (e =? 61).

(** What the specification's encoder writes for one byte, and for a sequence
    of bytes. *)
Definition encode_byte_spec (x : Z) : bytes :=
  let e := (x + 42) mod 256 in
  if critical e then [61; (e + 64) mod 256] else [e].

Definition encode_spec (data : bytes) : bytes := flat_map encode_byte_spec data.

(** The decimal digits of a number that is not negative ([strconv.Itoa]),
    last digit first into [acc]. *)
Fixpoint itoa_loop (fuel : nat) (n : Z) (acc : bytes) : bytes :=
  match fuel with
  | O => acc
  | S fuel' =>
      let acc := (48 + n mod 10) :: acc in
      if n / 10 =? 0 then acc else itoa_loop fuel' (n / 10) acc
  end.

Definition Itoa (n : Z) : bytes := itoa_loop (S (Z.to_nat (Z.log2 n))) n [].

(** The end of a line: LF, or CR LF. *)
Definition eol (crlf : bool) : bytes := (if crlf then [13] else []) ++ [10].

(** A well-formed single-part stream: the [=ybegin] line, the lines of the
    encoded body, the [=yend] line, each with its line end. *)
Definition ybegin_line (name : bytes) (cols size : Z) : bytes :=
  bs "=ybegin line=" ++ Itoa cols ++ bs " size=" ++ Itoa size ++ bs " name=" ++ name.

Definition yend_line (size : Z) : bytes := bs "=yend size=" ++ Itoa size.

Definition yenc_stream (name : bytes) (cols : Z) (crlf : bool) (size : Z)
    (body : list bytes) : bytes :=
  concat (map (fun l => l ++ eol crlf)
              (ybegin_line name cols size :: body ++ [yend_line size])).

(** Whether [=y] occurs in a string. *)
Fixpoint has_marker (l : bytes) : bool :=
  match l with
  | a :: (c :: _) as t => (a =? 61) && (c =? 121) || has_marker t
  | _ => false
  end.

(** A decimal digit. *)
Definition digit (c : Z) : Prop := 48 <= c <= 57.

(** A printable ASCII character other than the space. *)
Definition plain (c : Z) : Prop := 32 < c < 128.

(** The numbers the [part=] tokens of a token, and of a trailer line, are read
    as. *)
Definition part_values (token : bytes) : list Z :=
  match Split (TrimSpace token) 61 with
  | key :: value :: _ => if bytes_eqb key (bs "part") then [fst (Atoi value)] else []
  | _ => []
  end.

Definition part_tokens (line : bytes) : list Z := flat_map part_values (Split line 32).

(** [rounds d d']: the loop of [run], entered with decoder [d], gets to the
    start of a round with decoder [d'], every round before having ended
    without an error. *)
Inductive rounds : decoder -> decoder -> Prop :=
| rounds_here d : rounds d d
| rounds_next d d' d'' : decoder.round d = (None, d') -> rounds d' d'' -> rounds d d''.

(** The decoder [run] enters its loop with. *)
Definition run_start (input : io_Reader) : decoder :=
  decoder.set_crcHash (decoder.new input) NewIEEE.

(** The trailer sets [Size] and the two expected checksums, nothing else. *)
Definition trailer_frame (d d' : decoder) : Prop :=
  buf d' = buf d /\ parts d' = parts d /\ multipart d' = multipart d /\
  crcHash d' = crcHash d /\
  Part.Number (part d') = Part.Number (part d) /\
  Part.Body (part d') = Part.Body (part d) /\
  Part.crcHash (part d') = Part.crcHash (part d).

(** The headers leave the reader, the parts, the checksums and the body of
    the active part alone. *)
Definition header_frame (d d' : decoder) : Prop :=
  buf d' = buf d /\ parts d' = parts d /\ crc32 d' = crc32 d /\ crcHash d' = crcHash d /\
  Part.Body (part d') = Part.Body (part d).

(** What holds of the session at the start of every round: the parts of the
    list have passed their validation, and the session's hash is the CRC-32 of
    their bodies, one after the other. *)
Definition session_ok (d : decoder) : Prop :=
  Forall (fun p => Part.validate p = None) (parts d) /\
  crcHash d = ChecksumIEEE (concat (map Part.Body (parts d))).


(** The decoder with the three fields a trailer can set: the [Size] and the
    expected checksum of the active part, and the expected checksum of the
    session. *)
Definition trailer_update (d : decoder) (size pcrc crc : Z) : decoder :=
  set_crc32 (set_part d (Part.set_crc32 (Part.set_Size (part d) size) pcrc)) crc.

(** The decoder with other bytes after the last line feed of its reader. *)
Definition with_rest (d : decoder) (r : bytes) : decoder :=
  set_buf d {| lines := lines (buf d); rest := r; fail := fail (buf d) |}.

(** An action is blind to the bytes after the last line feed when they have
    no part in what it returns, nor in what it leaves in the other fields. *)
Definition rest_blind (a : action) : Prop :=
  forall d r, exists r', a (with_rest d r) = (fst (a d), with_rest (snd (a d)) r').

(** The errors of the validations and of the trailer, which [Decode] returns
    as they are. *)
Definition format_error (e : error) : Prop :=
  (exists got expected, e = ErrBodySize got expected) \/
  (exists number expected got, e = ErrPartCRC number expected got) \/
  (exists expected got, e = ErrCRC expected got) \/
  (exists expected got, e = ErrOutOfOrder expected got).

(** ** parseHeaders *)

(** A [map[string]string] as the list of its entries, every key once: an
    assignment replaces the value of a key that is there, and adds the key if
    it is not. *)
Definition values_map := list (bytes * bytes).

Fixpoint assign (values : values_map) (key value : bytes) : values_map :=
  match values with
  | [] => [(key, value)]
  | (k, v) :: values' =>
      if bytes_eqb k key then (key, value) :: values'
      else (k, v) :: assign values' key value
  end.

Fixpoint lookup (values : values_map) (key : bytes) : option bytes :=
  match values with
  | [] => None
  | (k, v) :: values' => if bytes_eqb k key then Some v else lookup values' key
  end.

(** [strings.Index(s, sep)] *)
Definition Index (s sep : bytes) : Z :=
  match cut s sep with
  | Some (before, _) => len before
  | None => -1
  end.

(** One round of the [for] over the headers of [parseHeaders]. *)
Definition parseHeader (values : values_map) (header : bytes) : values_map :=
  match SplitN2 (TrimSpace header) (bs "=") with
  | key :: value :: _ => assign values key value
  | _ => values
  end.

Definition parseHeaders (inputBytes : bytes) : values_map :=
  let values : values_map := [] in
  let input := inputBytes in
  (* get the filename name off the end *)
  let ni := Index input (bs "name=") in
  let (values, ni) :=
    if -1 <? ni then (assign values (bs "name") (skipn (Z.to_nat ni) input), ni)
    else (values, len input) in
  (* get other header values *)
  fold_left parseHeader (Split (firstn (Z.to_nat ni) input) 32) values.

(** The value the last of the fields [key=value] with the key gives it. *)
Fixpoint last_value (fields : list (bytes * bytes)) (key : bytes) : option bytes :=
  match fields with
  | [] => None
  | (k, v) :: fields' =>
      match last_value fields' key with
      | Some v' => Some v'
      | None => if bytes_eqb k key then Some v else None
      end
  end.

(** The fields as a header line has them, each after a space. *)
Definition header_fields (fields : list (bytes * bytes)) : bytes :=
  concat (map (fun kv => 32 :: fst kv ++ 61 :: snd kv) fields).

(** Two lines that differ in their line ends only, and two decoders that
    differ in the line ends of the unread lines only. *)
Definition same_line (l1 l2 : bytes) : Prop := TrimRight_crlf l1 = TrimRight_crlf l2.

Definition same_lines (d1 d2 : decoder) : Prop :=
  exists ls, Forall2 same_line ls (lines (buf d2)) /\
             d1 = decoder.set_buf d2 (unread ls (buf d2)).

(** An action that returns the same error, and leaves the same decoder, for
    the same lines with other line ends. *)
Definition line_end_blind (a : decoder.action) : Prop :=
  forall d1 d2, same_lines d1 d2 ->
                fst (a d1) = fst (a d2) /\ same_lines (snd (a d1)) (snd (a d2)).

(** What [readHeader] does with the [=ybegin] line it has found, and
    [readPartHeader] with the [=ypart] line. *)
Definition begin_line (s : bytes) (d : decoder) : decoder :=
  let pieces := SplitN2 (skipn 7 s) (bs "name=") in
  let d := match pieces with
           | _ :: name :: _ =>
               decoder.set_part d (Part.set_Name (decoder.part d) (TrimSpace name))
           | _ => d
           end in
  fold_left decoder.headerField (Split (hd [] pieces) 32) d.

Definition part_line (s : bytes) (d : decoder) : decoder :=
  fold_left decoder.partHeaderField (Split (skipn 6 s) 32) d.

(** An action that does not read the reader and leaves it as it is. *)
Definition buf_blind (a : decoder.action) : Prop :=
  forall d r, a (decoder.set_buf d r) = (fst (a d), decoder.set_buf (snd (a d)) r).

(** ** Streams used as examples *)

(** The lines given, each ended by a line feed. *)
Definition unlines (ls : list bytes) : bytes := concat (map (fun l => l ++ [10]) ls).

(** A part whose body is the line [=] followed by the line [yend]. *)
Definition escape_split_stream : bytes :=
  unlines [bs "=ybegin line=128 size=4 name=a"; bs "="; bs "yend"; bs "=yend size=4"].

(** The same with the two lines of the body joined. *)
Definition escape_joined_stream : bytes :=
  unlines [bs "=ybegin line=128 size=4 name=a"; bs "=yend"; bs "=yend size=4"].

(** A complete part followed by a part that stops after a line of its body. *)
Definition truncated_second_part : bytes :=
  unlines [bs "=ybegin line=128 size=1 name=a"; bs "k"; bs "=yend size=1";
           bs "=ybegin line=128 size=1 name=b"; bs "k"].

(** A part whose trailer declares the checksums [00000000]. *)
Definition zero_crc_stream : bytes :=
  unlines [bs "=ybegin line=128 size=1 name=a"; bs "k";
           bs "=yend size=1 pcrc32=00000000 crc32=00000000"].




(** A multipart stream of two parts, with the checksums of yencode. *)
Definition two_part_stream : bytes :=
  unlines [bs "=ybegin part=1 total=2 line=128 size=2 name=ab.txt";
           bs "=ypart begin=1 end=1"; bs "k"; bs "=yend size=1 part=1 pcrc32=d3d99e8b";
           bs "=ybegin part=2 total=2 line=128 size=2 name=ab.txt";
           bs "=ypart begin=2 end=2"; bs "l";
           bs "=yend size=1 part=2 pcrc32=4ad0cf31 crc32=30694c07"].

(** A part whose [crc32=] is not the checksum of its body, and one whose
    [size=] is not the length of its body. *)
Definition wrong_crc_stream : bytes :=
  unlines [bs "=ybegin line=128 size=1 name=a"; bs "k"; bs "=yend size=1 crc32=d3d99e8c"].

Definition wrong_size_stream : bytes :=
  unlines [bs "=ybegin line=128 size=2 name=a"; bs "k"; bs "=yend size=2"].

(** A complete part whose header has a [part=] field, with no [=ypart] line
    after it. *)
Definition missing_ypart_stream : bytes :=
  unlines [bs "=ybegin part=1 total=1 line=128 size=1 name=a"; bs "k";
           bs "=yend size=1 part=1"].


(** * Properties *)

(** Reads the fields of a decoder or a part written with the setters. *)
Ltac fields :=
  cbn [buf multipart total parts part crc32 crcHash awaitingSpecial
       set_buf set_multipart set_total set_parts set_part set_crc32 set_crcHash
       set_awaitingSpecial
       Part.Number Part.hsize Part.Size Part.Begin Part.End_ Part.Name Part.cols
       Part.crc32 Part.crcHash Part.Body
       Part.set_Number Part.set_hsize Part.set_Size Part.set_Begin Part.set_End
       Part.set_Name Part.set_cols Part.set_crc32 Part.set_crcHash Part.set_Body Part.new
       lines rest fail unread drained fst snd].

Tactic Notation "fields" "in" hyp(H) :=
  cbn [buf multipart total parts part crc32 crcHash awaitingSpecial
       set_buf set_multipart set_total set_parts set_part set_crc32 set_crcHash
       set_awaitingSpecial
       Part.Number Part.hsize Part.Size Part.Begin Part.End_ Part.Name Part.cols
       Part.crc32 Part.crcHash Part.Body
       Part.set_Number Part.set_hsize Part.set_Size Part.set_Begin Part.set_End
       Part.set_Name Part.set_cols Part.set_crc32 Part.set_crcHash Part.set_Body Part.new
       lines rest fail unread drained fst snd] in H.

Ltac branches :=
  repeat match goal with
         | |- context [if ?c then _ else _] => destruct c
         | |- context [match ?x with _ => _ end] => destruct x
         end.

(** ** The models of the packages at known values *)

Example crc32_check_value : ChecksumIEEE (bs "123456789") = 0xcbf43926.
Proof. reflexivity. Qed.

Example ParseInt_examples :
  ParseInt (bs "128") = (128, None) /\ ParseInt (bs "-7") = (-7, None) /\
  ParseInt (bs "12a") = (0, Some ErrSyntax) /\ ParseInt (bs "") = (0, Some ErrSyntax) /\
  ParseInt (bs "9223372036854775808") = (9223372036854775807, Some ErrRange) /\
  ParseUint (bs "DeadBeef") 16 = (0xdeadbeef, None).
Proof. repeat split. Qed.

Example TrimSpace_examples :
  TrimSpace (bs " size=12 ") = bs "size=12" /\
  TrimSpace ([194; 160] ++ bs "a b" ++ [226; 128; 137; 13; 10]) = bs "a b" /\
  Split (bs " a  b") 32 = [[]; bs "a"; []; bs "b"] /\
  SplitN2 (bs " size=1 name=x name=y") (bs "name=") = [bs " size=1 "; bs "x name=y"].
Proof. repeat split. Qed.


(** ** Lists, slices and byte arithmetic *)

Lemma len_app A (s t : list A) : len (s ++ t) = len s + len t.
Proof. unfold len. rewrite length_app. lia. Qed.

Lemma len_nonneg A (s : list A) : 0 <= len s.
Proof. unfold len. lia. Qed.

Lemma and8_255 (a : Z) : and8 a 255 = a mod 256.
Proof. unfold and8. change 255 with (Z.ones 8). now rewrite Z.land_ones by lia. Qed.

Lemma shift_once (c : Z) : and8 (sub8 c 42) 255 = (c - 42) mod 256.
Proof. rewrite and8_255. unfold sub8. now rewrite Z.mod_mod by lia. Qed.

Lemma shift_twice (c : Z) :
  and8 (sub8 (and8 (sub8 c 42) 255) 64) 255 = ((c - 42) mod 256 - 64) mod 256.
Proof. rewrite shift_once, and8_255. unfold sub8. now rewrite Z.mod_mod by lia. Qed.

Lemma index_middle (pre rem : bytes) (c : Z) : index (pre ++ c :: rem) (len pre) = c.
Proof. unfold index, len. rewrite Nat2Z.id. apply nth_middle. Qed.

Lemma store_nat_length (l : bytes) (j : nat) (v : Z) : length (store_nat l j v) = length l.
Proof.
  revert j. induction l as [|c l IH]; intros [|j]; simpl; auto.
Qed.

Lemma store_nat_app (l t : bytes) (j : nat) (v : Z) :
  (j < length l)%nat -> store_nat (l ++ t) j v = store_nat l j v ++ t.
Proof.
  revert j. induction l as [|c l IH]; intros [|j] Hj; simpl in *; try lia; auto.
  f_equal. apply IH. lia.
Qed.

Lemma firstn_store_nat (l : bytes) (j : nat) (v : Z) :
  (j < length l)%nat -> firstn (S j) (store_nat l j v) = firstn j l ++ [v].
Proof.
  revert j. induction l as [|c l IH]; intros [|j] Hj; simpl in *; try lia; auto.
  f_equal. apply IH. lia.
Qed.

(** Writing at the write cursor, which never passes the read cursor, extends
    the output by one byte and leaves the unread bytes alone. *)
Lemma store_behind (pre rem out : bytes) (c v : Z) :
  firstn (length out) pre = out -> (length out <= length pre)%nat ->
  exists pre',
    store (pre ++ c :: rem) (len out) v = pre' ++ rem /\
    length pre' = S (length pre) /\
    firstn (length (out ++ [v])) pre' = out ++ [v].
Proof.
  intros Hout Hle. exists (store_nat (pre ++ [c]) (length out) v).
  unfold store, len. rewrite Nat2Z.id.
  assert (Hlt : (length out < length (pre ++ [c]))%nat)
    by (rewrite length_app; simpl; lia).
  repeat split.
  - change (c :: rem) with ([c] ++ rem). rewrite app_assoc. now apply store_nat_app.
  - rewrite store_nat_length, length_app. simpl. lia.
  - rewrite length_app. simpl. rewrite Nat.add_1_r, firstn_store_nat by exact Hlt.
    rewrite firstn_app. replace (length out - length pre)%nat with 0%nat by lia.
    simpl. now rewrite app_nil_r, Hout.
Qed.

(** The invariant of the loop of [decode]: [pre] is the part of the slice
    behind the read cursor, whose first bytes are the output [out] so far. *)
Lemma decode_loop_spec (rem pre out : bytes) (awaiting : bool) :
  firstn (length out) pre = out -> (length out <= length pre)%nat ->
  exists line',
    decoder.decode_loop (length rem) (pre ++ rem) (len pre) (len out) awaiting
    = (line', len (pre ++ rem), len (out ++ fst (decode_spec awaiting rem)),
       snd (decode_spec awaiting rem)) /\
    firstn (length (out ++ fst (decode_spec awaiting rem))) line'
    = out ++ fst (decode_spec awaiting rem).
Proof.
  revert pre out awaiting.
  induction rem as [|c rem IH]; intros pre out awaiting Hout Hle.
  - simpl. exists (pre ++ []). rewrite !app_nil_r. split; [reflexivity | exact Hout].
  - cbn [length decoder.decode_loop decode_spec]. rewrite index_middle.
    assert (Hnext : forall l : bytes, len l + 1 = len (l ++ [c]))
      by (intro l; rewrite len_app; reflexivity).
    assert (Hsplit : pre ++ c :: rem = (pre ++ [c]) ++ rem)
      by (now rewrite <- app_assoc).
    destruct awaiting.
    + destruct (store_behind pre rem c
                  (and8 (sub8 (and8 (sub8 c 42) 255) 64) 255) Hout Hle)
        as (pre' & -> & Hlen & Hfirst).
      rewrite shift_twice in *.
      set (v := ((c - 42) mod 256 - 64) mod 256) in *.
      destruct (IH pre' (out ++ [v]) false Hfirst) as (line' & Hrun & Hres).
      { rewrite length_app. simpl. lia. }
      destruct (decode_spec false rem) as [o a] eqn:Hspec. cbn [fst snd] in *.
      exists line'.
      replace (len pre + 1) with (len pre') by (unfold len; lia).
      replace (len out + 1) with (len (out ++ [v])) by (rewrite len_app; reflexivity).
      rewrite Hrun. split.
      * rewrite <- app_assoc. do 3 f_equal.
        unfold len. rewrite !length_app. simpl. lia.
      * now rewrite <- app_assoc in Hres.
    + destruct (c =? 61) eqn:Hc.
      * destruct (IH (pre ++ [c]) out true) as (line' & Hrun & Hres).
        { rewrite firstn_app, Hout.
          replace (length out - length pre)%nat with 0%nat by lia.
          simpl. now rewrite app_nil_r. }
        { rewrite length_app. simpl. lia. }
        exists line'. rewrite Hsplit, Hnext.
        replace (len out - 1 + 1) with (len out) by lia.
        rewrite Hrun. split; [reflexivity | exact Hres].
      * destruct (store_behind pre rem c (and8 (sub8 c 42) 255) Hout Hle)
          as (pre' & -> & Hlen & Hfirst).
        rewrite shift_once in *.
        set (v := (c - 42) mod 256) in *.
        destruct (IH pre' (out ++ [v]) false Hfirst) as (line' & Hrun & Hres).
        { rewrite length_app. simpl. lia. }
        destruct (decode_spec false rem) as [o a] eqn:Hspec. cbn [fst snd] in *.
        exists line'.
        replace (len pre + 1) with (len pre') by (unfold len; lia).
        replace (len out + 1) with (len (out ++ [v])) by (rewrite len_app; reflexivity).
        rewrite Hrun. split.
        -- rewrite <- app_assoc. do 3 f_equal.
           unfold len. rewrite !length_app. simpl. lia.
        -- now rewrite <- app_assoc in Hres.
Qed.

(** The in-place loop of [decode] computes [decode_spec]. *)
Lemma decode_eq (d : decoder) (line : bytes) :
  decoder.decode d line
  = (fst (decode_spec (decoder.awaitingSpecial d) line),
     decoder.set_awaitingSpecial d (snd (decode_spec (decoder.awaitingSpecial d) line))).
Proof.
  unfold decoder.decode.
  destruct (@decode_loop_spec line [] [] (decoder.awaitingSpecial d) eq_refl)
    as (line' & Hrun & Hres); [simpl; lia|].
  cbn [app] in Hrun. change (len (@nil Z)) with 0 in Hrun. rewrite Hrun.
  f_equal. rewrite <- Hres at 2. f_equal.
  unfold len. cbn [app]. lia.
Qed.



(** ** The reader and the trimming of white space *)

(** The loops over the unread lines are the loops of the source over the
    results of [ReadString] and [ReadBytes]. *)
Lemma find_line_ReadBytes (marker : bytes) (r : Reader) :
  find_line marker (lines r)
  = match ReadBytes r with
    | (_, Some _, _) => None
    | (s, None, r') =>
        if has_prefix marker s then Some (s, lines r') else find_line marker (lines r')
    end.
Proof. unfold ReadBytes. now destruct (lines r). Qed.

Lemma readBody_loop_ReadBytes (d : decoder) :
  decoder.readBody_loop (lines (decoder.buf d)) d
  = match ReadBytes (decoder.buf d) with
    | (_, Some e, r) => (Some e, decoder.set_buf d r)
    | (line, None, r) =>
        if has_prefix (bs "=yend") (TrimRight_crlf line)
        then decoder.parseTrailer (TrimRight_crlf line) (decoder.set_buf d r)
        else decoder.readBody_loop (lines r) (decoder.bodyLine d (TrimRight_crlf line))
    end.
Proof. unfold ReadBytes. now destruct (lines (decoder.buf d)). Qed.

(** The lines the reader holds are the input cut after each line feed. *)
Lemma split_lines_sound (input : bytes) :
  concat (fst (split_lines input)) ++ snd (split_lines input) = input /\
  Forall (fun l => exists l', l = l' ++ [10] /\ ~ In 10 l') (fst (split_lines input)) /\
  ~ In 10 (snd (split_lines input)).
Proof.
  induction input as [|c input (IHcat & IHlines & IHrest)]; cbn [split_lines].
  - repeat split; [constructor | easy].
  - destruct (split_lines input) as [ls r]. cbn [fst snd] in *.
    destruct (Z.eqb_spec c 10) as [->|Hc]; cbn [fst snd concat app].
    + repeat split; [now rewrite IHcat | | exact IHrest].
      constructor; [|exact IHlines]. now exists [].
    + destruct ls as [|l ls]; cbn [fst snd concat app] in *.
      * repeat split; [now rewrite IHcat | constructor | intros [H|H]; auto].
      * repeat split; [now rewrite IHcat | | exact IHrest].
        inversion IHlines as [|? ? (l' & -> & Hl') Hls]; subst.
        constructor; [|exact Hls]. exists (c :: l'). split; [reflexivity|].
        intros [H|H]; auto.
Qed.

Lemma space_width_bound (s : bytes) : (space_width s <= length s)%nat.
Proof.
  unfold space_width. destruct s as [|c [|c1 [|c2 s]]]; cbn [length];
    repeat match goal with
           | |- context [if ?b then _ else _] => destruct b
           end; lia.
Qed.

(** The rounds [TrimLeftSpace] is given are enough: what it returns does not
    start with white space. *)
Lemma trim_left_fuel_done (n : nat) (s : bytes) :
  (length s <= n)%nat -> space_width (trim_left_fuel n s) = 0%nat.
Proof.
  revert s. induction n as [|n IH]; intros s Hn; cbn [trim_left_fuel].
  - now destruct s.
  - destruct (space_width s) as [|w] eqn:Hw; [exact Hw|].
    apply IH. pose proof (space_width_bound s) as Hb.
    rewrite length_skipn. lia.
Qed.

Lemma TrimLeftSpace_done (s : bytes) : space_width (TrimLeftSpace s) = 0%nat.
Proof. now apply trim_left_fuel_done. Qed.

(** ** The body reader *)

Lemma decode_spec_app (a b : bytes) (awaiting : bool) :
  decode_spec awaiting (a ++ b)
  = (fst (decode_spec awaiting a) ++ fst (decode_spec (snd (decode_spec awaiting a)) b),
     snd (decode_spec (snd (decode_spec awaiting a)) b)).
Proof.
  revert awaiting.
  induction a as [|c a IH]; intros awaiting; cbn [app decode_spec fst snd].
  - now destruct (decode_spec awaiting b).
  - destruct awaiting; [|destruct (c =? 61)]; rewrite IH;
      try (destruct (decode_spec false a)); reflexivity.
Qed.

Lemma not32_involutive (crc : Z) : not32 (not32 crc) = crc.
Proof.
  unfold not32. now rewrite Z.lxor_assoc, Z.lxor_nilpotent, Z.lxor_0_r.
Qed.

Lemma Update_app (crc : Z) (p q : bytes) : Update (Update crc p) q = Update crc (p ++ q).
Proof.
  unfold Update, crc_bytes. now rewrite not32_involutive, fold_left_app.
Qed.

Lemma Update_nil (crc : Z) : Update crc [] = crc.
Proof. unfold Update. simpl. apply not32_involutive. Qed.

(** What a line of the body does to the decoder, through [decode_spec]. *)
Lemma bodyLine_spec (d : decoder) (line : bytes) :
  bodyLine d line
  = let out := fst (decode_spec (awaitingSpecial d) line) in
    mk (buf d) (multipart d) (total d) (parts d)
       (Part.set_Body (Part.set_crcHash (part d) (Update (Part.crcHash (part d)) out))
                      (Part.Body (part d) ++ out))
       (crc32 d) (Update (crcHash d) out)
       (snd (decode_spec (awaitingSpecial d) line)).
Proof. unfold bodyLine. now rewrite decode_eq. Qed.

(** Where a body is broken into lines does not matter to what it decodes to:
    the awaiting flag carries the state of the decoder over the break. *)
Lemma bodyLine_app (d : decoder) (a b : bytes) :
  bodyLine (bodyLine d a) b = bodyLine d (a ++ b).
Proof.
  rewrite !bodyLine_spec. cbv zeta. cbn [awaitingSpecial part crcHash buf multipart total
    parts crc32 Part.set_Body Part.set_crcHash Part.Body Part.crcHash Part.Number
    Part.hsize Part.Size Part.Begin Part.End_ Part.Name Part.cols Part.crc32].
  rewrite decode_spec_app. cbn [fst snd].
  now rewrite !Update_app, app_assoc.
Qed.

Lemma drop_crlf_line_ends (eol : bytes) : forallb line_end eol = true -> drop_crlf eol = [].
Proof.
  induction eol as [|c eol IH]; simpl; [reflexivity|].
  unfold line_end at 1. intros [-> H]%andb_prop. now apply IH.
Qed.

Lemma drop_crlf_stops (a t : bytes) (x : Z) :
  line_end x = false -> drop_crlf (a ++ x :: t) = drop_crlf a ++ x :: t.
Proof.
  intros Hx. induction a as [|c a IH]; simpl.
  - unfold line_end in Hx. now rewrite Hx.
  - destruct ((c =? 13) || (c =? 10)); [exact IH | reflexivity].
Qed.

(** Trimming the line ends stops at the last byte that is not one. *)
Lemma TrimRight_crlf_stops (l t : bytes) (x : Z) :
  line_end x = false -> TrimRight_crlf (l ++ x :: t) = l ++ x :: TrimRight_crlf t.
Proof.
  intros Hx. unfold TrimRight_crlf.
  rewrite rev_app_distr. cbn [rev]. rewrite <- app_assoc. cbn [app].
  rewrite drop_crlf_stops by exact Hx.
  rewrite rev_app_distr. cbn [rev]. now rewrite rev_involutive, <- app_assoc.
Qed.

Lemma TrimRight_crlf_line_ends (eol : bytes) :
  forallb line_end eol = true -> TrimRight_crlf eol = [].
Proof.
  intros H. unfold TrimRight_crlf. rewrite drop_crlf_line_ends; [reflexivity|].
  rewrite forallb_forall in *. intros c Hc. apply H. now apply in_rev.
Qed.

Lemma has_prefix_app (p s t : bytes) :
  has_prefix p s = true -> has_prefix p (s ++ t) = true.
Proof.
  revert s. induction p as [|x p IH]; intros [|y s]; simpl; try easy.
  intros [-> H]%andb_prop. now apply IH.
Qed.

Lemma readBody_loop_body (before after : list bytes) (d : decoder) :
  forallb body_line before = true ->
  readBody_loop (before ++ after) d
  = readBody_loop after (fold_left (fun d raw => bodyLine d (TrimRight_crlf raw)) before d).
Proof.
  revert d. induction before as [|raw before IH]; intros d; [reflexivity|].
  cbn [forallb app fold_left readBody_loop]. unfold body_line at 1.
  intros [Hraw H]%andb_prop. apply negb_true_iff in Hraw. rewrite Hraw. now apply IH.
Qed.

(** [readBody] reads the lines it is given; which lines its decoder's reader
    holds at that point is of no account. *)
Lemma readBody_loop_unread (ls ls0 : list bytes) (d : decoder) :
  readBody_loop ls (set_buf d (unread ls0 (buf d))) = readBody_loop ls d.
Proof.
  revert d. induction ls as [|raw ls IH]; intros d; [reflexivity|].
  cbn [readBody_loop]. destruct (has_prefix _ _); [reflexivity|].
  rewrite <- (IH (bodyLine d _)). f_equal. now rewrite !bodyLine_spec.
Qed.

(** C4 (amended): the awaiting flag is reset at the start of [readBody],
    whatever it was, and is carried from line to line after that, so that two
    lines decoded one after the other give what the two decoded as one line
    give.  When a line of the body ends with a bare [=] and the next line
    starts with the escaped byte, [readBody] ends with the same error and the
    same decoder as for the input where the two lines are one, provided that
    the joined line is still a line of the body (trimmed, it does not start
    with [=yend]). *)
Theorem escape_across_line_boundary
    (d : decoder) (before after : list bytes) (l1 eol1 t : bytes) (c : Z) :
  forallb body_line before = true ->
  forallb line_end eol1 = true ->
  body_line (c :: t) = true ->
  body_line (l1 ++ 61 :: c :: t) = true ->
  lines (buf d) = before ++ (l1 ++ 61 :: eol1) :: (c :: t) :: after ->
  (forall flag, readBody (set_awaitingSpecial d flag) = readBody d) /\
  (forall d0 a b, bodyLine (bodyLine d0 a) b = bodyLine d0 (a ++ b)) /\
  readBody d
  = readBody (set_buf d (unread (before ++ (l1 ++ 61 :: c :: t) :: after) (buf d))).
Proof.
  intros Hbefore Heol Hnext Hjoined Hlines.
  split; [reflexivity|]. split; [exact bodyLine_app|].
  unfold readBody. cbn [buf set_part set_awaitingSpecial set_buf unread lines].
  rewrite Hlines.
  match goal with
  | |- _ = readBody_loop ?ls ?d' =>
      change d' with
        (set_buf (set_part (set_awaitingSpecial (set_part d (Part.set_Body (part d) [])) false)
                    (Part.set_crcHash (Part.set_Body (part d) []) NewIEEE))
                 (unread ls (buf d)))
  end.
  rewrite (readBody_loop_unread _ _
             (set_part (set_awaitingSpecial (set_part d (Part.set_Body (part d) [])) false)
                       (Part.set_crcHash (Part.set_Body (part d) []) NewIEEE))).
  rewrite !readBody_loop_body by exact Hbefore.
  assert (Htrim1 : TrimRight_crlf (l1 ++ 61 :: eol1) = l1 ++ [61])
    by (rewrite TrimRight_crlf_stops, TrimRight_crlf_line_ends by easy; reflexivity).
  assert (Htrim : TrimRight_crlf (l1 ++ 61 :: c :: t) = (l1 ++ [61]) ++ TrimRight_crlf (c :: t))
    by (rewrite TrimRight_crlf_stops, <- app_assoc by easy; reflexivity).
  unfold body_line in Hnext, Hjoined. apply negb_true_iff in Hnext, Hjoined.
  assert (Hfirst : has_prefix (bs "=yend") (l1 ++ [61]) = false).
  { destruct (has_prefix (bs "=yend") (l1 ++ [61])) eqn:H; [|reflexivity].
    apply has_prefix_app with (t := TrimRight_crlf (c :: t)) in H. congruence. }
  cbn [readBody_loop]. rewrite Htrim1, Hfirst, Hnext, Hjoined, Htrim, bodyLine_app.
  reflexivity.
Qed.

Lemma escape_across_line_boundary_witness :
  let d := decoder.new (NewStringReader (unlines [bs "k="; bs "Jl"; bs "=yend size=3"])) in
  readBody d = readBody (set_buf d (unread [bs "k=Jl" ++ [10]; bs "=yend size=3" ++ [10]] (buf d))).
Proof.
  intro d.
  exact (proj2 (proj2 (@escape_across_line_boundary d [] [bs "=yend size=3" ++ [10]]
                         (bs "k") [10] (bs "l" ++ [10]) 74
                         eq_refl eq_refl eq_refl eq_refl eq_refl))).
Defined.

(** C4, as stated, fails where joining the two lines makes a trailer of
    them: the body with the lines [=] and [yend] decodes to four bytes, and
    with the single line [=yend] in their place the body is empty. *)
Lemma escape_across_line_boundary_counterexample :
  Body_of (Decode (NewStringReader escape_split_stream)) = Some [15; 59; 68; 58] /\
  Body_of (Decode (NewStringReader escape_joined_stream)) = Some [].
Proof. split; vm_compute; reflexivity. Qed.

(** ** The loop of run *)

Lemma find_line_none (marker : bytes) (ls : list bytes) :
  (forall l, In l ls -> has_prefix marker l = false) -> find_line marker ls = None.
Proof.
  induction ls as [|s ls IH]; intros H; [reflexivity|].
  cbn [find_line]. rewrite (H s) by now left.
  apply IH. intros l Hl. apply H. now right.
Qed.

Lemma run_loop_S (fuel : nat) (d : decoder) :
  run_loop (S fuel) d
  = match round d with
    | (Some e, d') => (Some e, d')
    | (None, d') => run_loop fuel d'
    end.
Proof. reflexivity. Qed.

(** A round stops with the error of the first of its steps that fails. *)
Lemma round_headers_error (d d' : decoder) (e : error) :
  headers d = (Some e, d') -> round d = (Some e, d').
Proof. intros H. unfold round, and_then at 1 2 3. now rewrite H. Qed.

Lemma round_readBody_error (d d1 d' : decoder) (e : error) :
  headers d = (None, d1) -> readBody d1 = (Some e, d') -> round d = (Some e, d').
Proof. intros H1 H2. unfold round, and_then at 1 2 3. now rewrite H1, H2. Qed.

Lemma round_readBody_ok (d d1 d2 : decoder) :
  headers d = (None, d1) -> readBody d1 = (None, d2) ->
  round d = (Part.validate (part d2), set_parts d2 (parts d2 ++ [part d2])).
Proof. intros H1 H2. unfold round, and_then at 1 2 3. now rewrite H1, H2. Qed.

Lemma headers_no_header (d : decoder) :
  find_line (bs "=ybegin") (lines (buf d)) = None ->
  headers d = (Some EOF, set_buf (set_part d Part.new) (drained (buf d))).
Proof.
  intros H. unfold headers, and_then, readHeader.
  cbn [buf set_part]. now rewrite H.
Qed.

(** C8: when no line of the input starts with [=ybegin], whatever the error
    the input ends with, [Decode] returns the error "no yenc parts found" and
    no part. *)
Theorem no_header_no_parts (input : io_Reader) :
  (forall l, In l (lines (NewReader input)) -> has_prefix (bs "=ybegin") l = false) ->
  Decode input = Err ErrNoParts.
Proof.
  intros H. unfold Decode, run. rewrite run_loop_S.
  rewrite (@round_headers_error _
             (set_buf (set_part (set_crcHash (decoder.new input) NewIEEE) Part.new)
                      (drained (NewReader input))) EOF).
  - reflexivity.
  - apply headers_no_header. now apply find_line_none.
Qed.

Lemma no_header_no_parts_witness :
  Decode (NewStringReader (unlines [bs "not yenc"; bs " =ybegin size=1 name=a"]))
  = Err ErrNoParts.
Proof.
  apply no_header_no_parts. vm_compute.
  intros l [<- | [<- | []]]; reflexivity.
Defined.

(** C2, at the input the claim names: a complete part followed by a part
    whose body stops before its [=yend].  [readBody] returns [io.EOF] for the
    second part, which [Decode] takes for the end of the parts: it returns the
    first part and no error. *)
Theorem truncated_second_part_is_accepted :
  exists p, Decode (NewStringReader truncated_second_part) = Ok p /\
            Part.Body p = [65] /\ Part.Name p = bs "a".
Proof. eexists. split; [vm_compute; reflexivity | split; reflexivity]. Qed.

(** ** What the header and trailer fields leave alone *)

Lemma trailer_frame_refl (d : decoder) : trailer_frame d d.
Proof. repeat split. Qed.

Lemma trailer_frame_trans (d d' d'' : decoder) :
  trailer_frame d d' -> trailer_frame d' d'' -> trailer_frame d d''.
Proof. unfold trailer_frame. intuition congruence. Qed.

Lemma trailerField_frame (token : bytes) (d d' : decoder) (e : option error) :
  trailerField token d = (e, d') -> trailer_frame d d'.
Proof.
  unfold trailerField, trailerSwitch. branches;
    intros [= <- <-]; repeat split.
Qed.

Lemma parseTrailer_loop_frame (tokens : list bytes) (d d' : decoder) (e : option error) :
  parseTrailer_loop tokens d = (e, d') -> trailer_frame d d'.
Proof.
  revert d. induction tokens as [|token tokens IH]; intros d; cbn [parseTrailer_loop].
  - intros [= <- <-]. apply trailer_frame_refl.
  - unfold and_then. destruct (trailerField token d) as [[e1|] d1] eqn:H1.
    + intros [= <- <-]. now apply trailerField_frame in H1.
    + intros H. apply trailerField_frame in H1.
      apply (trailer_frame_trans H1). now apply IH.
Qed.

Lemma headerField_frame (d : decoder) (token : bytes) : header_frame d (headerField d token).
Proof. unfold headerField, headerSwitch. branches; repeat split. Qed.

Lemma partHeaderField_frame (d : decoder) (token : bytes) :
  header_frame d (partHeaderField d token) /\
  multipart (partHeaderField d token) = multipart d.
Proof. unfold partHeaderField, partHeaderSwitch. branches; repeat split. Qed.

Lemma fold_header_frame (f : decoder -> bytes -> decoder) (tokens : list bytes) :
  (forall d token, header_frame d (f d token)) ->
  forall d, header_frame d (fold_left f tokens d).
Proof.
  intros Hf. induction tokens as [|token tokens IH]; intros d; cbn [fold_left].
  - repeat split.
  - specialize (IH (f d token)). specialize (Hf d token).
    unfold header_frame in *. intuition congruence.
Qed.

Lemma bytes_eqb_eq (s t : bytes) : bytes_eqb s t = true -> s = t.
Proof.
  revert t. induction s as [|x s IH]; intros [|y t]; simpl; try easy.
  intros [Hx H]%andb_prop. apply Z.eqb_eq in Hx. f_equal; auto.
Qed.

(** ** Progress of the reader and termination of run *)

Lemma find_line_shorter (marker s : bytes) (ls ls' : list bytes) :
  find_line marker ls = Some (s, ls') -> (length ls' < length ls)%nat.
Proof.
  induction ls as [|l ls IH]; cbn [find_line]; [easy|].
  destruct (has_prefix marker l).
  - intros [= _ <-]. simpl. lia.
  - intros H. apply IH in H. simpl. lia.
Qed.

Lemma readHeader_frame (d d' : decoder) (e : option error) :
  readHeader d = (e, d') ->
  parts d' = parts d /\ crc32 d' = crc32 d /\ crcHash d' = crcHash d /\
  Part.Body (part d') = Part.Body (part d).
Proof.
  unfold readHeader. destruct (find_line _ _) as [[s ls]|]; [|now intros [= <- <-]].
  intros [= <- <-].
  match goal with
  | |- context [fold_left headerField ?toks ?d0] =>
      destruct (fold_header_frame headerField toks headerField_frame d0)
        as (_ & -> & -> & -> & ->)
  end.
  destruct (SplitN2 _ _) as [|? [|? ?]]; repeat split.
Qed.

Lemma readHeader_ok (d d' : decoder) :
  readHeader d = (None, d') ->
  exists s ls, find_line (bs "=ybegin") (lines (buf d)) = Some (s, ls) /\
               buf d' = unread ls (buf d).
Proof.
  unfold readHeader. destruct (find_line _ _) as [[s ls]|]; [|easy].
  intros [= <-]. exists s, ls. split; [reflexivity|].
  match goal with
  | |- context [fold_left headerField ?toks ?d0] =>
      destruct (fold_header_frame headerField toks headerField_frame d0) as (-> & _)
  end.
  now destruct (SplitN2 _ _) as [|? [|? ?]].
Qed.

Lemma readPartHeader_frame (d d' : decoder) (e : option error) :
  readPartHeader d = (e, d') ->
  parts d' = parts d /\ crc32 d' = crc32 d /\ crcHash d' = crcHash d /\
  Part.Body (part d') = Part.Body (part d).
Proof.
  unfold readPartHeader. destruct (find_line _ _) as [[s ls]|]; [|now intros [= <- <-]].
  intros [= <- <-].
  match goal with
  | |- context [fold_left partHeaderField ?toks ?d0] =>
      destruct (fold_header_frame partHeaderField toks
                  (fun d t => proj1 (partHeaderField_frame d t)) d0)
        as (_ & -> & -> & -> & ->)
  end.
  repeat split.
Qed.

Lemma readPartHeader_ok (d d' : decoder) :
  readPartHeader d = (None, d') ->
  exists s ls, find_line (bs "=ypart") (lines (buf d)) = Some (s, ls) /\
               buf d' = unread ls (buf d).
Proof.
  unfold readPartHeader. destruct (find_line _ _) as [[s ls]|]; [|easy].
  intros [= <-]. exists s, ls. split; [reflexivity|].
  match goal with
  | |- context [fold_left partHeaderField ?toks ?d0] =>
      destruct (fold_header_frame partHeaderField toks
                  (fun d t => proj1 (partHeaderField_frame d t)) d0) as (-> & _)
  end.
  reflexivity.
Qed.

(** The headers, found or not, leave the parts and the checksums of the
    session alone, and the active part they leave has no body yet. *)
Lemma headers_frame (d d' : decoder) (e : option error) :
  headers d = (e, d') ->
  parts d' = parts d /\ crc32 d' = crc32 d /\ crcHash d' = crcHash d /\
  Part.Body (part d') = [].
Proof.
  unfold headers, and_then.
  destruct (readHeader (set_part d Part.new)) as [[e1|] d1] eqn:H1;
    apply readHeader_frame in H1 as (Hparts & Hcrc & Hhash & Hbody);
    cbn [set_part parts crc32 crcHash part Part.Body Part.new] in *.
  - now intros [= <- <-].
  - destruct (multipart d1); [|now intros [= <- <-]].
    intros (-> & -> & -> & ->)%readPartHeader_frame. now repeat split.
Qed.

Lemma headers_ok (d d' : decoder) :
  headers d = (None, d') -> (length (lines (buf d')) < length (lines (buf d)))%nat.
Proof.
  unfold headers, and_then.
  destruct (readHeader (set_part d Part.new)) as [[e|] d1] eqn:H1; [easy|].
  apply readHeader_ok in H1 as (s & ls & Hfind & Hbuf).
  apply find_line_shorter in Hfind. cbn [buf set_part] in *.
  destruct (multipart d1).
  - intros H2. apply readPartHeader_ok in H2 as (s2 & ls2 & Hfind2 & ->).
    apply find_line_shorter in Hfind2. rewrite Hbuf in *. cbn [unread lines] in *. lia.
  - intros [= <-]. now rewrite Hbuf.
Qed.
Lemma bodyLine_frame (d : decoder) (line : bytes) :
  buf (bodyLine d line) = buf d /\ parts (bodyLine d line) = parts d /\
  multipart (bodyLine d line) = multipart d /\ crc32 (bodyLine d line) = crc32 d /\
  Part.Number (part (bodyLine d line)) = Part.Number (part d).
Proof. rewrite bodyLine_spec. repeat split. Qed.

Lemma readBody_loop_ok (ls : list bytes) (d d' : decoder) :
  readBody_loop ls d = (None, d') -> (length (lines (buf d')) < length ls)%nat.
Proof.
  revert d. induction ls as [|raw ls IH]; intros d; cbn [readBody_loop]; [easy|].
  destruct (has_prefix _ _).
  - intros H. apply parseTrailer_loop_frame in H as (-> & _). cbn. lia.
  - intros H. apply IH in H. simpl. lia.
Qed.

Lemma readBody_ok (d d' : decoder) :
  readBody d = (None, d') -> (length (lines (buf d')) < length (lines (buf d)))%nat.
Proof. unfold readBody. intros H. now apply readBody_loop_ok in H. Qed.

(** The checksums follow the body: whatever [readBody] ends with, the hash of
    the part is the CRC-32 of the body it has decoded for it, and the hash of
    the session has been fed the same bytes. *)
Lemma readBody_loop_frame (ls : list bytes) (d d' : decoder) (e : option error) :
  readBody_loop ls d = (e, d') ->
  parts d' = parts d /\ multipart d' = multipart d /\
  Part.Number (part d') = Part.Number (part d) /\
  exists out, Part.Body (part d') = Part.Body (part d) ++ out /\
              Part.crcHash (part d') = Update (Part.crcHash (part d)) out /\
              crcHash d' = Update (crcHash d) out.
Proof.
  revert d. induction ls as [|raw ls IH]; intros d; cbn [readBody_loop].
  - intros [= <- <-]. repeat split. exists [].
    now rewrite app_nil_r, !Update_nil.
  - destruct (has_prefix _ _).
    + intros H. apply parseTrailer_loop_frame in H as (_ & -> & -> & -> & -> & -> & ->).
      repeat split. exists []. cbn. now rewrite app_nil_r, !Update_nil.
    + intros H. apply IH in H as (-> & -> & -> & out & -> & -> & ->).
      rewrite bodyLine_spec. cbv zeta. cbn. repeat split.
      exists (fst (decode_spec (awaitingSpecial d) (TrimRight_crlf raw)) ++ out).
      now rewrite !Update_app, app_assoc.
Qed.

Lemma readBody_frame (d d' : decoder) (e : option error) :
  readBody d = (e, d') ->
  parts d' = parts d /\ multipart d' = multipart d /\
  Part.Number (part d') = Part.Number (part d) /\
  Part.crcHash (part d') = ChecksumIEEE (Part.Body (part d')) /\
  crcHash d' = Update (crcHash d) (Part.Body (part d')).
Proof.
  unfold readBody. intros H.
  apply readBody_loop_frame in H as (-> & -> & -> & out & -> & -> & ->).
  cbn. now repeat split.
Qed.

(** A round that ends without an error has read its headers, its body and
    trailer, and has validated the part it appended. *)
Lemma round_ok (d d' : decoder) :
  round d = (None, d') ->
  exists d1 d2, headers d = (None, d1) /\ readBody d1 = (None, d2) /\
                d' = set_parts d2 (parts d2 ++ [part d2]) /\
                Part.validate (part d2) = None.
Proof.
  unfold round, and_then at 1 2 3.
  destruct (headers d) as [[e|] d1] eqn:H1; [easy|].
  destruct (readBody d1) as [[e|] d2] eqn:H2; [easy|].
  cbn [part set_parts]. intros [= Hv <-]. now exists d1, d2.
Qed.

Lemma round_shorter (d d' : decoder) :
  round d = (None, d') -> (length (lines (buf d')) < length (lines (buf d)))%nat.
Proof.
  intros (d1 & d2 & H1 & H2 & -> & _)%round_ok.
  apply headers_ok in H1. apply readBody_ok in H2.
  cbn [buf set_parts]. lia.
Qed.

(** The loop of [run] ends, and ends with an error, as in the source: the
    fuel [run] gives it is never used up. *)
Lemma run_loop_returns_error (fuel : nat) (d : decoder) :
  (length (lines (buf d)) < fuel)%nat ->
  exists e d', run_loop fuel d = (Some e, d').
Proof.
  revert d. induction fuel as [|fuel IH]; intros d Hfuel; [lia|].
  rewrite run_loop_S. destruct (round d) as [[e|] d'] eqn:Hround; [now eauto|].
  apply IH. apply round_shorter in Hround. lia.
Qed.

Lemma run_returns_error (d : decoder) : exists e d', run d = (Some e, d').
Proof. unfold run. apply run_loop_returns_error. cbn [buf set_crcHash]. lia. Qed.

Lemma run_loop_fuel (fuel fuel' : nat) (d : decoder) :
  (length (lines (buf d)) < fuel)%nat -> (length (lines (buf d)) < fuel')%nat ->
  run_loop fuel d = run_loop fuel' d.
Proof.
  revert fuel' d. induction fuel as [|fuel IH]; intros [|fuel'] d H H'; try lia.
  rewrite !run_loop_S. destruct (round d) as [[e|] d'] eqn:Hround; [reflexivity|].
  apply round_shorter in Hround. apply IH; lia.
Qed.

Lemma run_loop_rounds (d d' : decoder) :
  rounds d d' ->
  forall fuel, (length (lines (buf d)) < fuel)%nat ->
  (length (lines (buf d')) <= length (lines (buf d)))%nat /\
  run_loop fuel d = run_loop fuel d'.
Proof.
  induction 1 as [d | d d' d'' Hround _ IH]; intros fuel Hfuel; [split; [lia | reflexivity]|].
  pose proof (round_shorter d Hround) as Hlt.
  destruct fuel as [|fuel]; [lia|].
  destruct (IH fuel) as [Hle Hrun]; [lia|].
  split; [lia|]. rewrite run_loop_S, Hround, Hrun.
  apply run_loop_fuel; lia.
Qed.

(** When the loop of [run] has got to decoder [d] and the round from [d] ends
    with an error, that is the error [run] returns. *)
Lemma run_rounds_error (input : io_Reader) (d d' : decoder) (e : error) :
  rounds (run_start input) d -> round d = (Some e, d') ->
  run (decoder.new input) = (Some e, d').
Proof.
  intros Hrounds Hround. unfold run. fold (run_start input).
  destruct (run_loop_rounds Hrounds (fuel := S (length (lines (buf (run_start input))))))
    as [_ ->]; [lia|].
  now rewrite run_loop_S, Hround.
Qed.

(** ** The switches at each key they know *)

Lemma headerSwitch_size (d : decoder) (value : bytes) :
  headerSwitch d (bs "size") value
  = set_part d (Part.set_hsize (part d) (fst (ParseInt value))).
Proof. reflexivity. Qed.

Lemma headerSwitch_line (d : decoder) (value : bytes) :
  headerSwitch d (bs "line") value
  = set_part d (Part.set_cols (part d) (fst (Atoi value))).
Proof. reflexivity. Qed.





Lemma trailerSwitch_size (d : decoder) (value : bytes) :
  trailerSwitch (bs "size") value d
  = (None, set_part d (Part.set_Size (part d) (fst (ParseInt value)))).
Proof. reflexivity. Qed.

Lemma trailerSwitch_pcrc32 (d : decoder) (value : bytes) :
  trailerSwitch (bs "pcrc32") value d
  = match ParseUint value 16 with
    | (crc64, None) => (None, set_part d (Part.set_crc32 (part d) (crc64 mod 2 ^ 32)))
    | (_, Some _) => (None, d)
    end.
Proof. reflexivity. Qed.

Lemma trailerSwitch_crc32 (d : decoder) (value : bytes) :
  trailerSwitch (bs "crc32") value d
  = match ParseUint value 16 with
    | (crc64, None) => (None, set_crc32 d (crc64 mod 2 ^ 32))
    | (_, Some _) => (None, d)
    end.
Proof. reflexivity. Qed.

Lemma trailerSwitch_part (d : decoder) (value : bytes) :
  trailerSwitch (bs "part") value d
  = if negb (fst (Atoi value) =? Part.Number (part d))
    then (Some (ErrOutOfOrder (Part.Number (part d)) (fst (Atoi value))), d)
    else (None, d).
Proof. reflexivity. Qed.

(** ** The trailer's part number *)

Lemma trailerField_mismatch (token : bytes) (d : decoder) (v : Z) :
  In v (part_values token) -> v <> Part.Number (part d) ->
  trailerField token d = (Some (ErrOutOfOrder (Part.Number (part d)) v), d).
Proof.
  unfold part_values, trailerField.
  destruct (Split (TrimSpace token) 61) as [|key [|value kv]]; try easy.
  destruct (bytes_eqb key (bs "part")) eqn:Hkey; [|easy].
  apply bytes_eqb_eq in Hkey. subst key. intros [<-|[]] Hv.
  rewrite trailerSwitch_part. apply Z.eqb_neq in Hv. now rewrite Hv.
Qed.

Lemma trailerField_error (token : bytes) (d d' : decoder) (e : error) :
  trailerField token d = (Some e, d') ->
  exists got, e = ErrOutOfOrder (Part.Number (part d)) got /\
              got <> Part.Number (part d) /\ In got (part_values token).
Proof.
  unfold part_values, trailerField, trailerSwitch.
  destruct (Split (TrimSpace token) 61) as [|key [|value kv]]; try easy.
  destruct (bytes_eqb key (bs "size")); [easy|].
  destruct (bytes_eqb key (bs "pcrc32")); [now destruct (ParseUint value 16) as [? [?|]]|].
  destruct (bytes_eqb key (bs "crc32")); [now destruct (ParseUint value 16) as [? [?|]]|].
  destruct (bytes_eqb key (bs "part")); [|easy].
  cbv zeta. destruct (fst (Atoi value) =? Part.Number (part d)) eqn:Hv; [easy|].
  intros [= <- <-]. exists (fst (Atoi value)). apply Z.eqb_neq in Hv.
  repeat split; [exact Hv | now left].
Qed.

(** The first [part=] token of the trailer that disagrees with the number of
    the part ends [parseTrailer] with the ordering error. *)
Lemma parseTrailer_loop_mismatch (tokens : list bytes) (d : decoder) (v : Z) :
  In v (flat_map part_values tokens) -> v <> Part.Number (part d) ->
  exists got d',
    parseTrailer_loop tokens d = (Some (ErrOutOfOrder (Part.Number (part d)) got), d') /\
    got <> Part.Number (part d) /\ In got (flat_map part_values tokens).
Proof.
  revert d. induction tokens as [|token tokens IH]; intros d; cbn [flat_map]; [easy|].
  intros Hin Hv. cbn [parseTrailer_loop]. unfold and_then.
  destruct (trailerField token d) as [[e|] d1] eqn:Hfield.
  - destruct (trailerField_error _ _ Hfield) as (got & -> & Hgot & Hin').
    exists got, d1. repeat split; [exact Hgot | apply in_or_app; now left].
  - apply in_app_or in Hin as [Hin|Hin].
    + rewrite (trailerField_mismatch _ _ Hin Hv) in Hfield. discriminate.
    + apply trailerField_frame in Hfield as (_ & _ & _ & _ & Hnum & _).
      rewrite <- Hnum in *. destruct (IH d1 Hin Hv) as (got & d' & -> & Hgot & Hin').
      exists got, d'. repeat split; [exact Hgot | apply in_or_app; now right].
Qed.

Lemma fold_bodyLine_Number (body : list bytes) (d : decoder) :
  Part.Number (part (fold_left (fun d raw => bodyLine d (TrimRight_crlf raw)) body d))
  = Part.Number (part d).
Proof.
  revert d. induction body as [|raw body IH]; intros d; cbn [fold_left]; [reflexivity|].
  rewrite IH. apply bodyLine_frame.
Qed.

(** With the trailer the loop of [readBody] gets to after lines of the body
    carrying such a token, [readBody] ends with the ordering error. *)
Lemma readBody_mismatch (d : decoder) (body after : list bytes) (raw : bytes) (v : Z) :
  lines (buf d) = body ++ raw :: after ->
  forallb body_line body = true ->
  has_prefix (bs "=yend") (TrimRight_crlf raw) = true ->
  In v (part_tokens (TrimRight_crlf raw)) ->
  v <> Part.Number (part d) ->
  exists got d',
    readBody d = (Some (ErrOutOfOrder (Part.Number (part d)) got), d') /\
    got <> Part.Number (part d) /\ In got (part_tokens (TrimRight_crlf raw)).
Proof.
  intros Hlines Hbody Hyend Hin Hv. unfold readBody.
  cbn [buf set_part set_awaitingSpecial]. rewrite Hlines, readBody_loop_body by exact Hbody.
  cbn [readBody_loop]. rewrite Hyend. unfold parseTrailer.
  match goal with
  | |- context [parseTrailer_loop ?toks ?d0] =>
      destruct (@parseTrailer_loop_mismatch toks d0 v Hin) as (got & d' & Hrun & Hgot)
  end.
  - cbn [part set_buf]. now rewrite fold_bodyLine_Number.
  - cbn [part set_buf] in *. rewrite fold_bodyLine_Number in *.
    cbn [part set_part Part.Number Part.set_crcHash Part.set_Body] in *.
    exists got, d'. now split.
Qed.

(** C5: let the loop of [run] have got to the start of a round, and let that
    round read its headers and, after lines of the body, a [=yend] line with a
    [part=] token whose number is not the [Number] the headers gave the part.
    Then [parseTrailer], on any decoder whose part has that [Number], returns
    the ordering error; [readBody] ends with it, and [Decode] returns that
    error and no part. *)
Theorem trailer_part_mismatch_aborts
    (input : io_Reader) (d d1 : decoder) (body after : list bytes) (raw : bytes) (v : Z) :
  rounds (run_start input) d ->
  headers d = (None, d1) ->
  lines (buf d1) = body ++ raw :: after ->
  forallb body_line body = true ->
  has_prefix (bs "=yend") (TrimRight_crlf raw) = true ->
  In v (part_tokens (TrimRight_crlf raw)) ->
  v <> Part.Number (part d1) ->
  (forall dt, Part.Number (part dt) = Part.Number (part d1) ->
     exists got dt',
       parseTrailer (TrimRight_crlf raw) dt
       = (Some (ErrOutOfOrder (Part.Number (part d1)) got), dt')) /\
  exists got d2,
    got <> Part.Number (part d1) /\ In got (part_tokens (TrimRight_crlf raw)) /\
    readBody d1 = (Some (ErrOutOfOrder (Part.Number (part d1)) got), d2) /\
    Decode input = Err (ErrOutOfOrder (Part.Number (part d1)) got).
Proof.
  intros Hrounds Hheaders Hlines Hbody Hyend Hin Hv. split.
  - intros dt Hdt. rewrite <- Hdt in *.
    destruct (@parseTrailer_loop_mismatch (Split (TrimRight_crlf raw) 32) dt v Hin Hv)
      as (got & dt' & Hrun & _).
    now exists got, dt'.
  - destruct (readBody_mismatch d1 body after raw Hlines Hbody Hyend Hin Hv)
      as (got & d2 & Hread & Hgot & Hin').
    exists got, d2. repeat split; try assumption.
    unfold Decode.
    now rewrite (run_rounds_error Hrounds (round_readBody_error d Hheaders Hread)).
Qed.

Lemma trailer_part_mismatch_aborts_witness :
  exists got,
    Decode (NewStringReader
              (unlines [bs "=ybegin part=1 line=128 size=1 name=a"; bs "=ypart begin=1 end=1";
                        bs "k"; bs "=yend size=1 part=2"]))
    = Err (ErrOutOfOrder 1 got).
Proof.
  pose (input := NewStringReader
                   (unlines [bs "=ybegin part=1 line=128 size=1 name=a";
                             bs "=ypart begin=1 end=1"; bs "k"; bs "=yend size=1 part=2"])).
  destruct (@trailer_part_mismatch_aborts input (run_start input)
              (snd (headers (run_start input)))
              [bs "k" ++ [10]] [] (bs "=yend size=1 part=2" ++ [10]) 2)
    as (_ & got & d2 & _ & _ & _ & H).
  - apply rounds_here.
  - vm_compute. reflexivity.
  - vm_compute. reflexivity.
  - reflexivity.
  - reflexivity.
  - vm_compute. now left.
  - vm_compute. discriminate.
  - exists got. exact H.
Defined.

(** ** Validation of the parts *)

Lemma Part_validate_None (p : Part) :
  Part.validate p = None <->
  len (Part.Body p) = Part.Size p /\ (0 < Part.crc32 p -> Part.crcHash p = Part.crc32 p).
Proof.
  unfold Part.validate.
  destruct (len (Part.Body p) =? Part.Size p) eqn:Hsize; cbn [negb].
  - apply Z.eqb_eq in Hsize.
    destruct (0 <? Part.crc32 p) eqn:Hpos; cbn [andb].
    + apply Z.ltb_lt in Hpos.
      destruct (Part.crcHash p =? Part.crc32 p) eqn:Hsum; cbn [negb].
      * apply Z.eqb_eq in Hsum. tauto.
      * apply Z.eqb_neq in Hsum. split; [easy | tauto].
    + apply Z.ltb_ge in Hpos. split; [|easy]. intros _. split; [easy | lia].
  - apply Z.eqb_neq in Hsize. split; [easy | tauto].
Qed.

Lemma Part_validate_not_EOF (p : Part) (e : error) :
  Part.validate p = Some e -> is_EOF e = false.
Proof. unfold Part.validate. branches; now intros [= <-]. Qed.

(** A round that ends with [io.EOF] ran out of input in its headers or its
    body: it has appended no part, and the session's hash has been fed what
    was decoded of the body. *)
Lemma round_EOF (d d' : decoder) :
  round d = (Some EOF, d') ->
  parts d' = parts d /\ crcHash d' = Update (crcHash d) (Part.Body (part d')).
Proof.
  unfold round, and_then at 1 2 3.
  destruct (headers d) as [[e1|] d1] eqn:H1.
  - intros [= -> <-]. apply headers_frame in H1 as (-> & _ & -> & ->).
    now rewrite Update_nil.
  - apply headers_frame in H1 as (<- & _ & <- & _).
    destruct (readBody d1) as [[e2|] d2] eqn:H2.
    + intros [= -> <-]. now apply readBody_frame in H2 as (-> & _ & _ & _ & ->).
    + cbn [part set_parts]. intros [= H _]. now apply Part_validate_not_EOF in H.
Qed.

Lemma round_session_ok (d d' : decoder) :
  round d = (None, d') -> session_ok d -> session_ok d'.
Proof.
  intros (d1 & d2 & H1 & H2 & -> & Hvalid)%round_ok [Hparts Hhash].
  apply headers_frame in H1 as (Hp1 & _ & Hh1 & _).
  apply readBody_frame in H2 as (Hp2 & _ & _ & _ & Hh2).
  unfold session_ok. cbn [parts crcHash set_parts]. rewrite Hp2, Hp1. split.
  - apply Forall_app. split; [exact Hparts | now constructor].
  - rewrite Hh2, Hh1, Hhash, map_app, concat_app. cbn [map concat].
    unfold ChecksumIEEE. now rewrite Update_app, app_nil_r.
Qed.

Lemma rounds_session_ok (d d' : decoder) : rounds d d' -> session_ok d -> session_ok d'.
Proof. induction 1; eauto using round_session_ok. Qed.

Lemma run_start_session_ok (input : io_Reader) : session_ok (run_start input).
Proof. split; [constructor | reflexivity]. Qed.

Lemma rounds_snoc (d d' d'' : decoder) :
  rounds d d' -> round d' = (None, d'') -> rounds d d''.
Proof. induction 1; eauto using rounds. Qed.

(** [run] returns the error of the round that fails. *)
Lemma run_loop_ends (fuel : nat) (d d' : decoder) (e : option error) :
  (length (lines (buf d)) < fuel)%nat -> run_loop fuel d = (e, d') ->
  exists d0 e', rounds d d0 /\ e = Some e' /\ round d0 = (Some e', d').
Proof.
  revert d. induction fuel as [|fuel IH]; intros d Hfuel; [lia|].
  rewrite run_loop_S. destruct (round d) as [[e1|] d1] eqn:Hround.
  - intros [= <- <-]. exists d, e1. repeat split; [constructor | exact Hround].
  - intros H. apply IH in H as (d0 & e' & Hrounds & -> & Hlast).
    + exists d0, e'. repeat split; [|exact Hlast]. now apply rounds_next with d1.
    + apply round_shorter in Hround. lia.
Qed.

Lemma run_ends (input : io_Reader) (d' : decoder) (e : option error) :
  run (decoder.new input) = (e, d') ->
  exists d0 e', rounds (run_start input) d0 /\ e = Some e' /\ round d0 = (Some e', d').
Proof. unfold run. apply run_loop_ends. cbn. lia. Qed.

(** When [run] returns [io.EOF], every part of the list has passed its
    validation, and the session's hash is the CRC-32 of the bodies of the
    parts followed by what was decoded of a part the input ended in. *)
Lemma run_EOF (input : io_Reader) (d : decoder) :
  run (decoder.new input) = (Some EOF, d) ->
  Forall (fun p => Part.validate p = None) (parts d) /\
  crcHash d = ChecksumIEEE (concat (map Part.Body (parts d)) ++ Part.Body (part d)).
Proof.
  intros (d0 & e' & Hrounds & [= <-] & Hlast)%run_ends.
  destruct (rounds_session_ok Hrounds (run_start_session_ok input)) as [Hparts Hhash].
  apply round_EOF in Hlast as [-> ->]. split; [exact Hparts|].
  rewrite Hhash. apply Update_app.
Qed.

Lemma Part_validate_Some (p : Part) :
  (exists e, Part.validate p = Some e) <->
  len (Part.Body p) <> Part.Size p \/
  (0 < Part.crc32 p /\ Part.crcHash p <> Part.crc32 p).
Proof.
  unfold Part.validate.
  destruct (Z.eqb_spec (len (Part.Body p)) (Part.Size p)) as [Hsize|Hsize]; cbn [negb].
  - destruct (Z.ltb_spec 0 (Part.crc32 p)) as [Hpos|Hpos]; cbn [andb].
    + destruct (Z.eqb_spec (Part.crcHash p) (Part.crc32 p)) as [Hsum|Hsum]; cbn [negb].
      * split; [now intros [e [=]] | tauto].
      * split; [tauto | now eauto].
    + split; [now intros [e [=]] | lia].
  - split; [tauto | now eauto].
Qed.

(** [Decode] returns a part only after [run] has returned [io.EOF], and then
    the first of the list. *)
Lemma Decode_Ok (input : io_Reader) (p : Part) :
  Decode input = Ok p ->
  exists d more, run (decoder.new input) = (Some EOF, d) /\ parts d = p :: more.
Proof.
  unfold Decode. destruct (run_returns_error (decoder.new input)) as (e & d & ->).
  destruct e; cbn [is_EOF negb]; try easy.
  unfold Decode_parts. destruct (parts d) as [|first more] eqn:Hparts; [easy|].
  intros H. exists d, more. split; [reflexivity|].
  rewrite <- Hparts in H. revert H. branches; now intros [= ->].
Qed.

(** C6 (amended): a round of [run] that has read the headers, the body and the
    trailer of a part appends the part and ends with what its validation
    returns.  The validation returns an error exactly when the length of the
    decoded body differs from the [Size] of the trailer, or the per-part CRC
    stored from the trailer is not zero and differs from the CRC-32 (IEEE) of
    the decoded body; [Decode] then returns that error.  Hence a part that
    passed has [len(Body) = Size], and so has every part [Decode] returns. *)
Theorem part_validation (input : io_Reader) (d d1 d2 : decoder) :
  rounds (run_start input) d ->
  headers d = (None, d1) ->
  readBody d1 = (None, d2) ->
  let p := part d2 in
  round d = (Part.validate p, set_parts d2 (parts d2 ++ [p])) /\
  ((exists e, Part.validate p = Some e) <->
   len (Part.Body p) <> Part.Size p \/
   (0 < Part.crc32 p /\ ChecksumIEEE (Part.Body p) <> Part.crc32 p)) /\
  (forall e, Part.validate p = Some e -> Decode input = Err e) /\
  (Part.validate p = None -> len (Part.Body p) = Part.Size p) /\
  (forall q, Decode input = Ok q -> len (Part.Body q) = Part.Size q).
Proof.
  intros Hrounds H1 H2 p. pose proof (round_readBody_ok d H1 H2) as Hround.
  fold p in Hround. split; [exact Hround|].
  apply readBody_frame in H2 as (_ & _ & _ & Hhash & _). fold p in Hhash.
  split; [rewrite <- Hhash; apply Part_validate_Some|].
  split; [|split].
  - intros e He. rewrite He in Hround. unfold Decode.
    rewrite (run_rounds_error Hrounds Hround).
    now rewrite (Part_validate_not_EOF _ He).
  - now intros [Hsize _]%Part_validate_None.
  - intros q (d' & more & [Hvalid _]%run_EOF & Hparts)%Decode_Ok.
    rewrite Hparts in Hvalid. apply Forall_inv in Hvalid.
    now apply Part_validate_None in Hvalid.
Qed.

Lemma part_validation_witness :
  exists p, Decode (NewStringReader zero_crc_stream) = Ok p /\
            len (Part.Body p) = Part.Size p.
Proof.
  pose (input := NewStringReader zero_crc_stream).
  pose (d1 := snd (headers (run_start input))).
  destruct (@part_validation input (run_start input) d1 (snd (readBody d1)))
    as (_ & _ & _ & _ & H).
  - apply rounds_here.
  - vm_compute. reflexivity.
  - vm_compute. reflexivity.
  - eexists. split; [vm_compute; reflexivity|]. apply H. vm_compute. reflexivity.
Defined.

(** C6, as stated, fails for a declared checksum of zero: the trailer's
    [pcrc32=00000000] is parsed without an error, it is not the CRC-32 of the
    body, and the part passes its validation. *)
Lemma part_validation_counterexample :
  ParseUint (bs "00000000") 16 = (0, None) /\
  (exists p, Decode (NewStringReader zero_crc_stream) = Ok p /\
             Part.Body p = [65] /\ Part.validate p = None) /\
  ChecksumIEEE [65] = 0xd3d99e8b.
Proof.
  split; [reflexivity|]. split; [|reflexivity].
  eexists. split; [vm_compute; reflexivity|]. split; reflexivity.
Qed.

(** ** The checksum of the session *)















(** ** Fields that do not parse *)





(** ** A declared checksum of zero *)

(** C10: a [pcrc32] or [crc32] of the trailer that parses to zero is stored as
    zero, and a stored zero is a check not asked for: the validation of the
    part then depends on the length of the body alone, whatever the hash of
    the part, and the validation of the session passes whatever its hash.  So
    a body whose CRC-32 is not zero passes against [00000000]. *)
Theorem zero_crc_skips_check (d : decoder) (hex : bytes) :
  ParseUint hex 16 = (0, None) ->
  trailerSwitch (bs "pcrc32") hex d = (None, set_part d (Part.set_crc32 (part d) 0)) /\
  trailerSwitch (bs "crc32") hex d = (None, set_crc32 d 0) /\
  (forall p sum, Part.crc32 p = 0 ->
     Part.validate (Part.set_crcHash p sum)
     = if len (Part.Body p) =? Part.Size p then None
       else Some (ErrBodySize (len (Part.Body p)) (Part.Size p))) /\
  (forall d' sum, crc32 d' = 0 -> decoder.validate (set_crcHash d' sum) = None) /\
  (exists p, Decode (NewStringReader zero_crc_stream) = Ok p /\
             ChecksumIEEE (Part.Body p) = 0xd3d99e8b).
Proof.
  intros H. rewrite trailerSwitch_pcrc32, trailerSwitch_crc32, H.
  repeat split.
  - intros p sum Hp. unfold Part.validate. cbn. rewrite Hp.
    now destruct (len (Part.Body p) =? Part.Size p).
  - intros d' sum Hd. unfold decoder.validate. cbn. now rewrite Hd.
  - eexists. split; [vm_compute; reflexivity | reflexivity].
Qed.

Lemma zero_crc_skips_check_witness :
  trailerSwitch (bs "pcrc32") (bs "00000000") (decoder.new (NewStringReader []))
  = (None, decoder.new (NewStringReader [])).
Proof.
  exact (proj1 (@zero_crc_skips_check (decoder.new (NewStringReader [])) (bs "00000000")
                  eq_refl)).
Defined.

(** ** Decimal numbers *)

Lemma itoa_loop_digits (fuel : nat) (n : Z) (acc : bytes) :
  Forall digit acc -> Forall digit (itoa_loop fuel n acc).
Proof.
  revert n acc. induction fuel as [|fuel IH]; intros n acc Hacc; cbn [itoa_loop]; [easy|].
  assert (Forall digit ((48 + n mod 10) :: acc)).
  { constructor; [|exact Hacc]. unfold digit. pose proof (Z.mod_pos_bound n 10). lia. }
  cbv zeta. destruct (n / 10 =? 0); auto.
Qed.

Lemma itoa_loop_cons (fuel : nat) (n : Z) (acc : bytes) :
  exists c ds, itoa_loop (S fuel) n acc = c :: ds.
Proof.
  revert n acc. induction fuel as [|fuel IH]; intros n acc.
  - cbn. destruct (n / 10 =? 0); eauto.
  - cbn [itoa_loop]. cbv zeta. destruct (n / 10 =? 0); [eauto | apply IH].
Qed.

Lemma Itoa_digits (n : Z) : Forall digit (Itoa n).
Proof. apply itoa_loop_digits. constructor. Qed.

Lemma Itoa_cons (n : Z) : exists c ds, Itoa n = c :: ds /\ digit c /\ Forall digit ds.
Proof.
  pose proof (Itoa_digits n) as H. unfold Itoa in *.
  destruct (itoa_loop_cons (Z.to_nat (Z.log2 n)) n []) as (c & ds & Heq).
  rewrite Heq in *. exists c, ds. now inversion H.
Qed.

(** One round of the digit loop of [ParseUint] that does not overflow. *)
Lemma parse_digits_digit (v d : Z) (s : bytes) :
  0 <= d <= 9 -> 0 <= v -> v * 10 + d <= maxUint64 ->
  parse_digits 10 v ((48 + d) :: s) = parse_digits 10 (v * 10 + d) s.
Proof.
  intros Hd Hv Hmax. cbn [parse_digits]. unfold maxUint64, wrap64 in *.
  replace ((48 <=? 48 + d) && (48 + d <=? 57)) with true by lia.
  cbn [orb]. cbv zeta. replace (48 + d - 48) with d by lia.
  replace (10 <=? d) with false by lia.
  replace (18446744073709551615 / 10 + 1 <=? v) with false
    by (change (18446744073709551615 / 10 + 1) with 1844674407370955162; lia).
  rewrite (Z.mod_small (v * 10)) by lia. rewrite (Z.mod_small (v * 10 + d)) by lia.
  replace (v * 10 + d <? v * 10) with false by lia.
  replace (18446744073709551615 <? v * 10 + d) with false by lia.
  reflexivity.
Qed.

Lemma parse_itoa_loop (fuel : nat) (n : Z) (s : bytes) :
  0 <= n <= maxUint64 -> n < 10 ^ Z.of_nat fuel ->
  parse_digits 10 0 (itoa_loop fuel n s) = parse_digits 10 n s.
Proof.
  revert n s. induction fuel as [|fuel IH]; intros n s Hn Hfuel.
  - cbn in *. now replace n with 0 by lia.
  - cbn [itoa_loop]. cbv zeta. pose proof (Z.mod_pos_bound n 10 eq_refl) as Hmod.
    pose proof (Z.div_mod n 10) as Hdiv.
    destruct (Z.eqb_spec (n / 10) 0) as [Hzero|Hpos].
    + rewrite parse_digits_digit by (unfold maxUint64 in *; lia). f_equal. lia.
    + rewrite IH.
      * rewrite parse_digits_digit by (unfold maxUint64 in *; lia). f_equal. lia.
      * unfold maxUint64 in *. lia.
      * apply Z.div_lt_upper_bound; [lia|].
        rewrite Nat2Z.inj_succ, Z.pow_succ_r in Hfuel by lia. exact Hfuel.
Qed.

Lemma Itoa_fuel (n : Z) : 0 <= n -> n < 10 ^ Z.of_nat (S (Z.to_nat (Z.log2 n))).
Proof.
  intros Hn. rewrite Nat2Z.inj_succ, Z2Nat.id by apply Z.log2_nonneg.
  destruct (Z.eq_dec n 0) as [->|Hpos]; [reflexivity|].
  apply Z.lt_le_trans with (2 ^ Z.succ (Z.log2 n)).
  - apply Z.log2_spec. lia.
  - apply Z.pow_le_mono_l. pose proof (Z.log2_nonneg n). lia.
Qed.

(** Reading back what [Itoa] wrote. *)
Lemma ParseInt_Itoa (n : Z) : 0 <= n < 2 ^ 63 -> ParseInt (Itoa n) = (n, None).
Proof.
  intros Hn. destruct (Itoa_cons n) as (c & ds & Heq & Hc & _).
  assert (Hparse : ParseUint (Itoa n) 10 = (n, None)).
  { unfold ParseUint. rewrite Heq, <- Heq. unfold Itoa.
    rewrite parse_itoa_loop; [reflexivity | unfold maxUint64; lia | apply Itoa_fuel; lia]. }
  unfold ParseInt. rewrite Heq, <- Heq. unfold digit in Hc.
  replace (c =? 43) with false by lia. replace (c =? 45) with false by lia.
  cbn [orb negb andb]. rewrite Hparse.
  replace (2 ^ 63 <=? n) with false by lia. reflexivity.
Qed.

(** ** What the encoder writes *)

Lemma critical_cases (e : Z) : critical e = true -> e = 0 \/ e = 10 \/ e = 13 \/ e = 61.
Proof. unfold critical. lia. Qed.

(** The decoder undoes the encoder, byte for byte. *)
Lemma decode_spec_encode (data rest : bytes) :
  Forall (fun x => 0 <= x < 256) data ->
  decode_spec false (encode_spec data ++ rest)
  = (data ++ fst (decode_spec false rest), snd (decode_spec false rest)).
Proof.
  induction 1 as [|x data Hx _ IH]; cbn [encode_spec flat_map app].
  - now destruct (decode_spec false rest).
  - fold (encode_spec data). rewrite <- app_assoc. unfold encode_byte_spec.
    destruct (critical ((x + 42) mod 256)) eqn:Hcrit; cbn [app decode_spec].
    + rewrite IH. cbn [Z.eqb Pos.eqb fst snd]. f_equal. f_equal.
      apply critical_cases in Hcrit. Z.div_mod_to_equations. lia.
    + replace ((x + 42) mod 256 =? 61) with false
        by (unfold critical in Hcrit; Z.div_mod_to_equations; lia).
      rewrite IH. f_equal. f_equal. Z.div_mod_to_equations. lia.
Qed.

Lemma encode_byte_plain (x : Z) :
  Forall (fun c => line_end c = false) (encode_byte_spec x) /\
  (exists c, encode_byte_spec x = [c] /\ c <> 61 \/
             encode_byte_spec x = [61; c] /\ c <> 61 /\ c <> 121).
Proof.
  unfold encode_byte_spec, line_end.
  destruct (critical ((x + 42) mod 256)) eqn:Hcrit.
  - apply critical_cases in Hcrit. split.
    + repeat constructor; Z.div_mod_to_equations; lia.
    + exists (((x + 42) mod 256 + 64) mod 256). right.
      repeat split; Z.div_mod_to_equations; lia.
  - unfold critical in Hcrit. split.
    + repeat constructor; lia.
    + exists ((x + 42) mod 256). left. split; [reflexivity | lia].
Qed.

(** No byte of an encoded body is a CR or a LF. *)
Lemma yenc_encode_no_line_end (data : bytes) :
  Forall (fun c => line_end c = false) (encode_spec data).
Proof.
  induction data as [|x data IH]; cbn [encode_spec flat_map]; [constructor|].
  apply Forall_app. split; [apply encode_byte_plain | exact IH].
Qed.

Lemma has_marker_cons (c : Z) (l : bytes) : c <> 61 -> has_marker (c :: l) = has_marker l.
Proof.
  intros Hc. destruct l as [|c' l]; [reflexivity|].
  cbn [has_marker]. now replace (c =? 61) with false by lia.
Qed.

(** An escape marker of an encoded body is never followed by [y]. *)
Lemma yenc_encode_no_marker (data : bytes) : has_marker (encode_spec data) = false.
Proof.
  induction data as [|x data IH]; cbn [encode_spec flat_map]; [reflexivity|].
  fold (encode_spec data).
  destruct (encode_byte_plain x) as [_ (c & [[-> Hc] | (-> & Hc & Hy)])]; cbn [app].
  - now rewrite has_marker_cons.
  - change (has_marker (61 :: c :: encode_spec data))
      with ((61 =? 61) && (c =? 121) || has_marker (c :: encode_spec data)).
    replace (c =? 121) with false by lia.
    rewrite andb_false_r. cbn [orb]. now rewrite has_marker_cons.
Qed.

Lemma has_marker_app (a c : bytes) :
  has_marker (a ++ c) = false -> has_marker a = false /\ has_marker c = false.
Proof.
  induction a as [|x a IH]; [now split|].
  destruct a as [|y a].
  - destruct c as [|z c]; [now split|]. cbn [app has_marker].
    intros [_ H]%orb_false_elim. now split.
  - cbn [app has_marker] in *. intros [Hxy H]%orb_false_elim.
    destruct (IH H) as [Ha Hc]. now rewrite Hxy, Ha.
Qed.

Lemma has_marker_concat (body : list bytes) (l : bytes) :
  has_marker (concat body) = false -> In l body -> has_marker l = false.
Proof.
  induction body as [|l' body IH]; cbn [concat]; [easy|].
  intros [Hl' Hbody]%has_marker_app [<-|Hin]; auto.
Qed.

(** A string without [=y] does not start with [=yend]. *)
Lemma no_marker_no_yend (l : bytes) :
  has_marker l = false -> has_prefix (bs "=yend") l = false.
Proof.
  destruct l as [|a [|c l]]; cbn [has_marker]; try reflexivity.
  - intros _. cbn. now rewrite andb_false_r.
  - intros [H _]%orb_false_elim.
    change (has_prefix (bs "=yend") (a :: c :: l))
      with ((61 =? a) && ((121 =? c) && has_prefix (bs "end") l)).
    rewrite (Z.eqb_sym 61), (Z.eqb_sym 121).
    destruct (a =? 61); [|reflexivity]. cbn [andb] in *. now rewrite H.
Qed.

Lemma Forall_concat A (P : A -> Prop) (ls : list (list A)) (l : list A) :
  Forall P (concat ls) -> In l ls -> Forall P l.
Proof.
  induction ls as [|l' ls IH]; cbn [concat]; [easy|].
  intros [Hl' Hls]%Forall_app [<-|Hin]; auto.
Qed.

(** ** Lines and their ends *)

Lemma eol_line_ends (crlf : bool) : forallb line_end (eol crlf) = true.
Proof. now destruct crlf. Qed.

Lemma drop_crlf_app (a r : bytes) :
  forallb line_end a = true -> drop_crlf (a ++ r) = drop_crlf r.
Proof.
  induction a as [|c a IH]; cbn [forallb app drop_crlf]; [easy|].
  unfold line_end at 1. intros [-> H]%andb_prop. now apply IH.
Qed.

Lemma drop_crlf_plain (r : bytes) :
  Forall (fun c => line_end c = false) r -> drop_crlf r = r.
Proof.
  destruct 1 as [|c r Hc _]; [reflexivity|].
  cbn [drop_crlf]. unfold line_end in Hc. now rewrite Hc.
Qed.

(** A line without CR and LF comes back from [TrimRight] without its end. *)
Lemma TrimRight_crlf_eol (l ending : bytes) :
  forallb line_end ending = true -> Forall (fun c => line_end c = false) l ->
  TrimRight_crlf (l ++ ending) = l.
Proof.
  intros Hend Hl. unfold TrimRight_crlf. rewrite rev_app_distr, drop_crlf_app.
  - rewrite drop_crlf_plain; [apply rev_involutive | now apply Forall_rev].
  - rewrite forallb_forall in *. intros c Hc. apply Hend. now apply in_rev.
Qed.

Lemma split_lines_line (l s : bytes) :
  ~ In 10 l ->
  split_lines (l ++ 10 :: s) = ((l ++ [10]) :: fst (split_lines s), snd (split_lines s)).
Proof.
  induction l as [|c l IH]; intros Hl; cbn [app split_lines].
  - now destruct (split_lines s).
  - rewrite IH by (intros H; apply Hl; now right).
    replace (c =? 10) with false; [reflexivity|].
    symmetry. apply Z.eqb_neq. intros ->. apply Hl. now left.
Qed.

(** The reader finds the lines a stream was written with. *)
Lemma split_lines_eol (crlf : bool) (ls : list bytes) :
  Forall (fun l => ~ In 10 l) ls ->
  split_lines (concat (map (fun l => l ++ eol crlf) ls))
  = (map (fun l => l ++ eol crlf) ls, []).
Proof.
  induction 1 as [|l ls Hl _ IH]; [reflexivity|].
  cbn [map concat]. unfold eol at 1 3.
  rewrite <- !app_assoc, (app_assoc l). cbn [app]. rewrite split_lines_line, IH.
  - cbn [fst snd]. now rewrite <- app_assoc.
  - intros [H|H]%in_app_or; [now apply Hl | now destruct crlf; destruct H].
Qed.

(** ** Splitting and trimming the tokens of a well-formed line *)

Lemma Split_no_sep (s : bytes) (sep : Z) : ~ In sep s -> Split s sep = [s].
Proof.
  induction s as [|c s IH]; intros Hs; cbn [Split]; [reflexivity|].
  replace (c =? sep) with false.
  - rewrite IH; [reflexivity|]. intros H. apply Hs. now right.
  - symmetry. apply Z.eqb_neq. intros ->. apply Hs. now left.
Qed.

Lemma Split_app_sep (a s : bytes) (sep : Z) :
  ~ In sep a -> Split (a ++ sep :: s) sep = a :: Split s sep.
Proof.
  induction a as [|c a IH]; intros Ha; cbn [app Split].
  - now rewrite Z.eqb_refl.
  - replace (c =? sep) with false.
    + rewrite IH; [reflexivity|]. intros H. apply Ha. now right.
    + symmetry. apply Z.eqb_neq. intros ->. apply Ha. now left.
Qed.

Lemma digit_plain (c : Z) : digit c -> plain c.
Proof. unfold digit, plain. lia. Qed.

Lemma digits_not_in (ds : bytes) (c : Z) : Forall digit ds -> ~ digit c -> ~ In c ds.
Proof. intros Hds Hc Hin. rewrite Forall_forall in Hds. auto. Qed.

Lemma space_width_plain (c : Z) (s : bytes) : plain c -> space_width (c :: s) = 0%nat.
Proof.
  unfold plain, space_width, ascii_space. intros Hc.
  replace (c =? 9) with false by lia. replace (c =? 10) with false by lia.
  replace (c =? 11) with false by lia. replace (c =? 12) with false by lia.
  replace (c =? 13) with false by lia. replace (c =? 32) with false by lia.
  replace (c =? 194) with false by lia. replace (c =? 225) with false by lia.
  replace (c =? 226) with false by lia. replace (c =? 227) with false by lia.
  cbn [orb andb]. now destruct s as [|c1 [|c2 s]].
Qed.

Lemma space_width_rev_plain (c : Z) (r : bytes) :
  plain c -> space_width_rev (c :: r) = 0%nat.
Proof.
  unfold plain, space_width_rev, space_width, ascii_space. intros Hc.
  replace (c =? 9) with false by lia. replace (c =? 10) with false by lia.
  replace (c =? 11) with false by lia. replace (c =? 12) with false by lia.
  replace (c =? 13) with false by lia. replace (c =? 32) with false by lia.
  replace (c =? 133) with false by lia. replace (c =? 160) with false by lia.
  replace (c =? 128) with false by lia. replace (c =? 159) with false by lia.
  replace (c =? 168) with false by lia. replace (c =? 169) with false by lia.
  replace (c =? 175) with false by lia. replace (128 <=? c) with false by lia.
  cbn [orb andb].
  destruct r as [|c1 [|c2 r]]; [reflexivity | |]; rewrite ?andb_false_r;
    repeat match goal with
           | |- context [if ?c then _ else _] =>
               lazymatch c with
               | context [if _ then _ else _] => fail
               | _ => destruct c
               end; cbn [Nat.eqb]
           end; reflexivity.
Qed.

(** A token of printable characters without a space is its own trimming. *)
Lemma TrimSpace_plain (s : bytes) : Forall plain s -> TrimSpace s = s.
Proof.
  intros Hs. unfold TrimSpace.
  assert (Hleft : TrimLeftSpace s = s).
  { unfold TrimLeftSpace. destruct Hs as [|c s Hc _]; [reflexivity|].
    cbn [length trim_left_fuel]. now rewrite space_width_plain. }
  rewrite Hleft. unfold TrimRightSpace. apply Forall_rev in Hs.
  rewrite <- length_rev. transitivity (rev (rev s)); [|apply rev_involutive].
  f_equal. destruct Hs as [|c r Hc _]; [reflexivity|].
  cbn [length trim_left_rev_fuel]. now rewrite space_width_rev_plain.
Qed.

Lemma headerField_empty (d : decoder) : headerField d [] = d.
Proof. reflexivity. Qed.

Lemma key_value_split (key value : bytes) :
  Forall plain key -> ~ In 61 key -> Forall digit value ->
  Split (TrimSpace (key ++ 61 :: value)) 61 = [key; value].
Proof.
  intros Hkey Hno Hvalue. rewrite TrimSpace_plain.
  - rewrite Split_app_sep by exact Hno. rewrite Split_no_sep; [reflexivity|].
    apply digits_not_in; [exact Hvalue | unfold digit; lia].
  - apply Forall_app. split; [exact Hkey|]. constructor; [unfold plain; lia|].
    eapply Forall_impl; [apply digit_plain | exact Hvalue].
Qed.

Lemma headerField_key (d : decoder) (key value : bytes) :
  Forall plain key -> ~ In 61 key -> Forall digit value ->
  headerField d (key ++ 61 :: value) = headerSwitch d key value.
Proof. intros. unfold headerField. now rewrite key_value_split. Qed.

Lemma trailerField_key (d : decoder) (key value : bytes) :
  Forall plain key -> ~ In 61 key -> Forall digit value ->
  trailerField (key ++ 61 :: value) d = trailerSwitch key value d.
Proof. intros. unfold trailerField. now rewrite key_value_split. Qed.

Lemma cut_cons (c : Z) (s sep before after : bytes) :
  has_prefix sep (c :: s) = false -> cut s sep = Some (before, after) ->
  cut (c :: s) sep = Some (c :: before, after).
Proof. intros Hc Hs. cbn [cut]. now rewrite Hc, Hs. Qed.

Lemma cut_digits (ds s before after : bytes) :
  Forall digit ds -> cut s (bs "name=") = Some (before, after) ->
  cut (ds ++ s) (bs "name=") = Some (ds ++ before, after).
Proof.
  intros Hds Hs. induction Hds as [|c ds Hc _ IH]; [exact Hs|].
  cbn [app]. apply cut_cons; [|exact IH].
  change (has_prefix (bs "name=") (c :: ds ++ s))
    with ((110 =? c) && has_prefix (bs "ame=") (ds ++ s)).
  unfold digit in Hc. now replace (110 =? c) with false by lia.
Qed.

(** The fields of the [=ybegin] line before its [name=]. *)
Lemma cut_name (cols_ds size_ds after : bytes) :
  Forall digit cols_ds -> Forall digit size_ds ->
  cut (bs " line=" ++ cols_ds ++ bs " size=" ++ size_ds ++ bs " name=" ++ after)
      (bs "name=")
  = Some (bs " line=" ++ cols_ds ++ bs " size=" ++ size_ds ++ bs " ", after).
Proof.
  intros Hcols Hsize.
  change (bs " line=" ++ cols_ds ++ bs " size=" ++ size_ds ++ bs " name=" ++ after)
    with (32 :: 108 :: 105 :: 110 :: 101 :: 61 :: cols_ds
          ++ 32 :: 115 :: 105 :: 122 :: 101 :: 61 :: size_ds
          ++ 32 :: bs "name=" ++ after).
  change (bs " line=" ++ cols_ds ++ bs " size=" ++ size_ds ++ bs " ")
    with (32 :: 108 :: 105 :: 110 :: 101 :: 61 :: cols_ds
          ++ 32 :: 115 :: 105 :: 122 :: 101 :: 61 :: size_ds ++ [32]).
  do 6 (apply cut_cons; [reflexivity|]). apply cut_digits; [exact Hcols|].
  do 6 (apply cut_cons; [reflexivity|]). apply cut_digits; [exact Hsize|].
  apply cut_cons; reflexivity.
Qed.

Lemma Split_fields (cols_ds size_ds : bytes) :
  Forall digit cols_ds -> Forall digit size_ds ->
  Split (bs " line=" ++ cols_ds ++ bs " size=" ++ size_ds ++ bs " ") 32
  = [[]; bs "line" ++ 61 :: cols_ds; bs "size" ++ 61 :: size_ds; []].
Proof.
  intros Hcols Hsize.
  assert (Hno : forall key ds, Forall digit ds -> ~ In 32 key -> ~ In 32 (key ++ 61 :: ds)).
  { intros key ds Hds Hkey [H|[H|H]]%in_app_or; [auto | discriminate |].
    revert H. apply digits_not_in; [exact Hds | unfold digit; lia]. }
  change (bs " line=" ++ cols_ds ++ bs " size=" ++ size_ds ++ bs " ")
    with ([] ++ 32 :: (bs "line" ++ 61 :: cols_ds) ++ 32 :: (bs "size" ++ 61 :: size_ds)
          ++ 32 :: []).
  rewrite Split_app_sep by easy.
  rewrite Split_app_sep by (apply Hno; [exact Hcols | cbn; intuition discriminate]).
  rewrite Split_app_sep by (apply Hno; [exact Hsize | cbn; intuition discriminate]).
  reflexivity.
Qed.

(** ** The round trip *)

Section RoundTrip.

Variables (data name : bytes) (body : list bytes) (cols : Z) (crlf : bool).

Hypothesis data_bytes : Forall (fun x => 0 <= x < 256) data.
Hypothesis data_size : len data < 2 ^ 63.
Hypothesis body_lines : concat body = encode_spec data.
Hypothesis name_line : ~ In 10 name.

Let size := len data.
Let header := ybegin_line name cols size.
Let trailer := yend_line size.
Let ended (l : bytes) := l ++ eol crlf.

Lemma size_range : 0 <= size < 2 ^ 63.
Proof. unfold size, len in *. lia. Qed.

(** The part as the [=ybegin] line leaves it. *)
Let part_begun : Part :=
  Part.mk 0 size 0 0 0 (TrimSpace (ended name)) (fst (Atoi (Itoa cols))) 0 NewIEEE [].

Lemma headers_stream (d : decoder) (ls : list bytes) :
  lines (buf d) = ended header :: ls -> multipart d = false ->
  headers d
  = (None, mk (unread ls (buf d)) false (total d) (parts d) part_begun
              (crc32 d) (crcHash d) (awaitingSpecial d)).
Proof.
  intros Hlines Hmulti. unfold headers, and_then, readHeader.
  cbn [buf set_part]. rewrite Hlines. cbn [find_line].
  replace (has_prefix (bs "=ybegin") (ended header)) with true by reflexivity.
  replace (skipn 7 (ended header))
    with (bs " line=" ++ Itoa cols ++ bs " size=" ++ Itoa size ++ bs " name=" ++ ended name)
    by (unfold ended, header, ybegin_line; now rewrite <- !app_assoc).
  unfold SplitN2. rewrite cut_name by apply Itoa_digits. cbn [hd].
  rewrite Split_fields by apply Itoa_digits. cbn [fold_left].
  rewrite !headerField_empty, !headerField_key;
    try apply Itoa_digits;
    try (repeat constructor; unfold plain; cbn; lia);
    try (cbn; intuition discriminate).
  rewrite headerSwitch_line, headerSwitch_size, (ParseInt_Itoa size_range).
  fields. rewrite Hmulti. unfold set_part, set_buf. fields. now rewrite Hmulti.
Qed.

Lemma bodyLine_nil (d : decoder) : bodyLine d [] = d.
Proof.
  rewrite bodyLine_spec. destruct d as [? ? ? ? [] ? ? ?]. cbn.
  now rewrite !Update_nil, app_nil_r.
Qed.

Lemma body_line_plain (l : bytes) :
  In l body -> Forall (fun c => line_end c = false) l /\ has_marker l = false.
Proof.
  intros Hl. split.
  - apply Forall_concat with body; [|exact Hl].
    rewrite body_lines. apply yenc_encode_no_line_end.
  - apply has_marker_concat with body; [|exact Hl].
    rewrite body_lines. apply yenc_encode_no_marker.
Qed.

Lemma TrimRight_crlf_ended (l : bytes) :
  Forall (fun c => line_end c = false) l -> TrimRight_crlf (ended l) = l.
Proof. apply TrimRight_crlf_eol, eol_line_ends. Qed.

(** No line of the encoded body is taken for the trailer. *)
Lemma body_is_body : forallb body_line (map ended body) = true.
Proof.
  apply forallb_forall. intros raw (l & <- & Hl)%in_map_iff.
  destruct (body_line_plain l Hl) as [Hplain Hmarker].
  unfold body_line. rewrite TrimRight_crlf_ended by exact Hplain.
  now rewrite no_marker_no_yend.
Qed.

Lemma fold_bodyLine_ended (ls : list bytes) (d : decoder) :
  (forall l, In l ls -> Forall (fun c => line_end c = false) l) ->
  fold_left (fun d raw => bodyLine d (TrimRight_crlf raw)) (map ended ls) d
  = bodyLine d (concat ls).
Proof.
  revert d. induction ls as [|l ls IH]; intros d Hls; cbn [map fold_left concat].
  - now rewrite bodyLine_nil.
  - rewrite TrimRight_crlf_ended by (apply Hls; now left).
    rewrite IH by (intros l' Hl'; apply Hls; now right).
    apply bodyLine_app.
Qed.

Lemma trailer_plain : Forall (fun c => line_end c = false) trailer.
Proof.
  unfold trailer, yend_line. apply Forall_app. split.
  - repeat constructor.
  - eapply Forall_impl; [|apply Itoa_digits]. unfold digit, line_end. lia.
Qed.

Lemma parseTrailer_trailer (d : decoder) :
  parseTrailer trailer d = (None, set_part d (Part.set_Size (part d) size)).
Proof.
  unfold parseTrailer, trailer, yend_line.
  change (bs "=yend size=" ++ Itoa size)
    with (bs "=yend" ++ 32 :: bs "size" ++ 61 :: Itoa size).
  rewrite Split_app_sep by (cbn; intuition discriminate).
  rewrite Split_no_sep.
  - cbn [parseTrailer_loop]. unfold and_then.
    replace (trailerField (bs "=yend") d) with (@None error, d) by reflexivity.
    rewrite trailerField_key;
      [| repeat constructor; unfold plain; cbn; lia
       | cbn; intuition discriminate
       | apply Itoa_digits].
    now rewrite trailerSwitch_size, (ParseInt_Itoa size_range).
  - intros [H|[H|H]]%in_app_or; [cbn in H; intuition discriminate | discriminate |].
    revert H. apply digits_not_in; [apply Itoa_digits | unfold digit; lia].
Qed.

Lemma readBody_stream (d : decoder) :
  lines (buf d) = map ended (body ++ [trailer]) ->
  readBody d
  = (None,
     mk (unread [] (buf d)) (multipart d) (total d) (parts d)
        (Part.set_Size
           (Part.set_Body (Part.set_crcHash (part d) (ChecksumIEEE data)) data) size)
        (crc32 d) (Update (crcHash d) data) false).
Proof.
  intros Hlines. unfold readBody. fields.
  rewrite Hlines, map_app, readBody_loop_body by apply body_is_body.
  rewrite fold_bodyLine_ended by (intros l Hl; now apply body_line_plain).
  cbn [map readBody_loop]. rewrite TrimRight_crlf_ended by apply trailer_plain.
  replace (has_prefix (bs "=yend") trailer) with true by reflexivity.
  rewrite parseTrailer_trailer, bodyLine_spec, body_lines.
  rewrite <- (app_nil_r (encode_spec data)), decode_spec_encode by exact data_bytes.
  cbv zeta. fields. cbn [decode_spec fst snd app]. now rewrite app_nil_r.
Qed.

Lemma header_one_line : ~ In 10 header.
Proof.
  unfold header, ybegin_line.
  assert (Hds : forall n, ~ In 10 (Itoa n))
    by (intros n; apply digits_not_in; [apply Itoa_digits | unfold digit; lia]).
  intros H. repeat (apply in_app_or in H as [H|H]);
    try (now apply name_line); try (now apply Hds in H);
    cbn in H; intuition discriminate.
Qed.

Lemma stream_lines :
  NewReader (NewStringReader (yenc_stream name cols crlf size body))
  = {| lines := map ended (header :: body ++ [trailer]); rest := []; fail := EOF |}.
Proof.
  unfold NewReader, NewStringReader, yenc_stream. cbn [stream err].
  fold header trailer. rewrite split_lines_eol; [reflexivity|].
  assert (Hplain : forall l, Forall (fun c => line_end c = false) l -> ~ In 10 l).
  { intros l Hl Hin. rewrite Forall_forall in Hl. now apply Hl in Hin. }
  constructor; [exact header_one_line|]. apply Forall_app. split.
  - apply Forall_forall. intros l Hl. now apply Hplain, body_line_plain.
  - constructor; [|constructor]. apply Hplain, trailer_plain.
Qed.

(** What [Decode] returns for the stream. *)
Lemma Decode_stream :
  Decode (NewStringReader (yenc_stream name cols crlf size body))
  = Ok (Part.set_Size
          (Part.set_Body (Part.set_crcHash part_begun (ChecksumIEEE data)) data) size).
Proof.
  unfold Decode, run, decoder.new. rewrite stream_lines. fields.
  cbn [map length]. rewrite run_loop_S.
  match goal with
  | |- context [round ?d] =>
      pose proof (headers_stream d (ls := map ended (body ++ [trailer])) eq_refl eq_refl)
        as H1
  end.
  match type of H1 with
  | _ = (None, ?d1) => pose proof (readBody_stream d1 eq_refl) as H2
  end.
  rewrite (round_readBody_ok _ H1 H2). clear H1 H2.
  fields. unfold Part.validate at 1. fields. rewrite Z.eqb_refl. cbn [negb andb Z.ltb Z.compare].
  rewrite run_loop_S.
  match goal with
  | |- context [round ?d] =>
      rewrite (round_headers_error d (headers_no_header d eq_refl))
  end.
  reflexivity.
Qed.

End RoundTrip.

(** C1: take any sequence of bytes, encode it (add 42 modulo 256, with [=]
    and the result plus 64 for a result of NUL, LF, CR or [=]), break the
    encoded bytes into lines at any places, and put the lines between a
    [=ybegin] line and a [=yend] line that declare the size, with LF or CR LF
    line ends.  [Decode] returns a part whose [Body] is the sequence. *)
Theorem encode_then_Decode
    (data name : bytes) (body : list bytes) (cols : Z) (crlf : bool) :
  Forall (fun x => 0 <= x < 256) data ->
  len data < 2 ^ 63 ->
  concat body = encode_spec data ->
  ~ In 10 name ->
  exists p,
    Decode (NewStringReader (yenc_stream name cols crlf (len data) body)) = Ok p /\
    Part.Body p = data /\ Part.Size p = len data /\
    Part.Name p = TrimSpace (name ++ eol crlf).
Proof.
  intros Hbytes Hsize Hbody Hname. eexists. split.
  - now apply Decode_stream.
  - repeat split.
Qed.

Lemma encode_then_Decode_witness :
  exists p,
    Decode (NewStringReader
              (yenc_stream (bs "a b.bin") 128 true 6
                 [[61]; [64; 61; 74; 61]; []; [77; 61; 125; 107; 41]]))
    = Ok p /\
    Part.Body p = [214; 224; 227; 19; 65; 255] /\ Part.Size p = 6 /\
    Part.Name p = bs "a b.bin".
Proof.
  apply (@encode_then_Decode [214; 224; 227; 19; 65; 255] (bs "a b.bin")
           [[61]; [64; 61; 74; 61]; []; [77; 61; 125; 107; 41]] 128 true).
  - repeat constructor; lia.
  - reflexivity.
  - reflexivity.
  - vm_compute. intuition discriminate.
Defined.

(** ** A body without its trailer *)

Lemma readBody_loop_exhausted (ls : list bytes) (d : decoder) :
  forallb body_line ls = true ->
  exists d', readBody_loop ls d = (Some (fail (buf d)), d').
Proof.
  intros Hls. rewrite <- (app_nil_r ls), readBody_loop_body by exact Hls.
  cbn [readBody_loop]. eexists. f_equal. f_equal. f_equal.
  generalize d. clear. induction ls as [|raw ls IH]; intros d; cbn [fold_left]; [reflexivity|].
  rewrite IH. apply bodyLine_frame.
Qed.

Lemma fold_header_buf (f : decoder -> bytes -> decoder) (tokens : list bytes) (d : decoder) :
  (forall d token, header_frame d (f d token)) -> buf (fold_left f tokens d) = buf d.
Proof. intros Hf. now destruct (fold_header_frame f tokens Hf d) as (-> & _). Qed.

(** The error the reader ends with is the same through all of [run]. *)
Lemma readHeader_fail (d d' : decoder) (e : option error) :
  readHeader d = (e, d') -> fail (buf d') = fail (buf d).
Proof.
  unfold readHeader.
  destruct (find_line _ _) as [[s ls]|]; intros [= <- <-]; [|reflexivity].
  rewrite fold_header_buf by exact headerField_frame.
  now destruct (SplitN2 _ _) as [|? [|? ?]].
Qed.

Lemma readPartHeader_fail (d d' : decoder) (e : option error) :
  readPartHeader d = (e, d') -> fail (buf d') = fail (buf d).
Proof.
  unfold readPartHeader.
  destruct (find_line _ _) as [[s ls]|]; intros [= <- <-]; [|reflexivity].
  now rewrite fold_header_buf by (intros; apply partHeaderField_frame).
Qed.

Lemma headers_fail (d d' : decoder) (e : option error) :
  headers d = (e, d') -> fail (buf d') = fail (buf d).
Proof.
  unfold headers, and_then.
  destruct (readHeader _) as [[e1|] d1] eqn:H1; apply readHeader_fail in H1;
    fields in H1; [now intros [= <- <-]|].
  destruct (multipart d1); [|now intros [= <- <-]].
  intros H2. apply readPartHeader_fail in H2. congruence.
Qed.

Lemma readBody_loop_fail (ls : list bytes) (d d' : decoder) (e : option error) :
  readBody_loop ls d = (e, d') -> fail (buf d') = fail (buf d).
Proof.
  revert d. induction ls as [|raw ls IH]; intros d; cbn [readBody_loop].
  - now intros [= <- <-].
  - destruct (has_prefix _ _).
    + now intros (-> & _)%parseTrailer_loop_frame.
    + intros H. apply IH in H. rewrite H. now rewrite bodyLine_spec.
Qed.

Lemma round_fail (d d' : decoder) (e : option error) :
  round d = (e, d') -> fail (buf d') = fail (buf d).
Proof.
  unfold round, and_then at 1 2 3.
  destruct (headers d) as [[e1|] d1] eqn:H1; apply headers_fail in H1;
    [now intros [= <- <-]|].
  destruct (readBody d1) as [[e2|] d2] eqn:H2; apply readBody_loop_fail in H2;
    fields in H2; intros [= <- <-]; fields; congruence.
Qed.

Lemma rounds_fail (d d' : decoder) : rounds d d' -> fail (buf d') = fail (buf d).
Proof.
  induction 1 as [|d d' d'' Hround _ IH]; [reflexivity|].
  apply round_fail in Hround. congruence.
Qed.

Lemma run_start_fail (input : io_Reader) : fail (buf (run_start input)) = err input.
Proof.
  unfold run_start, decoder.new, NewReader. now destruct (split_lines (stream input)).
Qed.

(** When the input ends in the body of a part, before any [=yend], [Decode]
    returns the error of the reader if that is not [io.EOF], and the error
    "no yenc parts found" if it is and no part came before.  (With [io.EOF]
    and a part before, it goes on as after a complete stream.) *)
Lemma truncated_body (input : io_Reader) (d d1 : decoder) :
  rounds (run_start input) d ->
  headers d = (None, d1) ->
  forallb body_line (lines (buf d1)) = true ->
  (is_EOF (err input) = false -> Decode input = Err (err input)) /\
  (is_EOF (err input) = true -> parts d = [] -> Decode input = Err ErrNoParts).
Proof.
  intros Hrounds Hheaders Hbody.
  destruct (readBody_loop_exhausted (lines (buf d1))
              (set_part (set_awaitingSpecial (set_part d1 (Part.set_Body (part d1) []))
                           false)
                 (Part.set_crcHash (Part.set_Body (part d1) []) NewIEEE)) Hbody)
    as [d2 Hread].
  change (readBody d1 = (Some (fail (buf d1)), d2)) in Hread.
  rewrite (headers_fail _ Hheaders), (rounds_fail Hrounds), run_start_fail in Hread.
  pose proof (run_rounds_error Hrounds (round_readBody_error d Hheaders Hread)) as Hrun.
  unfold Decode. rewrite Hrun. split; intros HEOF.
  - now rewrite HEOF.
  - intros Hparts. rewrite HEOF. cbn [negb]. unfold Decode_parts.
    apply readBody_frame in Hread as (-> & _).
    apply headers_frame in Hheaders as (-> & _). now rewrite Hparts.
Qed.

(** ** The decoder on whole streams *)

Example Decode_two_parts :
  exists p, Decode (NewStringReader two_part_stream) = Ok p /\
            Part.Number p = 1 /\ Part.Body p = [65] /\ Part.Name p = bs "ab.txt" /\
            Part.Begin p = 1 /\ Part.End_ p = 1 /\ Part.Size p = 1.
Proof. eexists. split; [vm_compute; reflexivity | repeat split]. Qed.

Example Decode_wrong_crc :
  Decode (NewStringReader wrong_crc_stream) = Err (ErrCRC 0xd3d99e8c 0xd3d99e8b).
Proof. vm_compute. reflexivity. Qed.

Example Decode_wrong_size :
  Decode (NewStringReader wrong_size_stream) = Err (ErrBodySize 1 2).
Proof. vm_compute. reflexivity. Qed.

Example Decode_reader_error :
  Decode {| stream := truncated_second_part; err := ErrReader |} = Err ErrReader.
Proof. vm_compute. reflexivity. Qed.

(** * Further properties of the decoder *)

(** ** The end of run *)

(** X1: [run] ends on every input, after at most one round for each unread
    line and one more, and what it returns is an error: the [return nil] after
    its loop is never reached.  More rounds allowed change nothing. *)
Theorem run_terminates (d : decoder) :
  exists e d',
    run d = (Some e, d') /\
    forall fuel, (length (lines (buf d)) < fuel)%nat ->
                 run_loop fuel (set_crcHash d NewIEEE) = (Some e, d').
Proof.
  destruct (run_returns_error d) as (e & d' & Hrun). exists e, d'.
  split; [exact Hrun|]. intros fuel Hfuel. rewrite <- Hrun. unfold run.
  apply run_loop_fuel; fields; lia.
Qed.

(** ** The errors of Decode *)

Lemma parseTrailer_loop_error (tokens : list bytes) (d d' : decoder) (e : error) :
  parseTrailer_loop tokens d = (Some e, d') -> exists a b, e = ErrOutOfOrder a b.
Proof.
  revert d. induction tokens as [|token tokens IH]; intros d; cbn [parseTrailer_loop]; [easy|].
  unfold and_then. destruct (trailerField token d) as [[e1|] d1] eqn:H1.
  - intros [= <- <-]. apply trailerField_error in H1 as (got & -> & _). eauto.
  - apply IH.
Qed.

Lemma readBody_loop_error (ls : list bytes) (d d' : decoder) (e : error) :
  readBody_loop ls d = (Some e, d') ->
  e = fail (buf d) \/ exists a b, e = ErrOutOfOrder a b.
Proof.
  revert d. induction ls as [|raw ls IH]; intros d; cbn [readBody_loop].
  - intros [= <- <-]. now left.
  - destruct (has_prefix _ _).
    + intros H. right. now apply parseTrailer_loop_error in H.
    + intros H. apply IH in H. now rewrite bodyLine_spec in H.
Qed.

Lemma Part_validate_error (p : Part) (e : error) :
  Part.validate p = Some e -> format_error e.
Proof.
  unfold Part.validate, format_error. branches; intros [= <-]; eauto 8.
Qed.

(** The errors a round of [run] can end with. *)
Lemma round_error (d d' : decoder) (e : error) :
  round d = (Some e, d') -> e = EOF \/ e = fail (buf d) \/ format_error e.
Proof.
  unfold round, and_then at 1 2 3.
  destruct (headers d) as [[e1|] d1] eqn:H1.
  - intros [= <- <-]. unfold headers, and_then in H1.
    destruct (readHeader _) as [[e0|] d0] eqn:H0.
    + injection H1 as <- <-. unfold readHeader in H0.
      destruct (find_line _ _) as [[s ls]|]; [discriminate|]. injection H0 as <- _. now left.
    + apply readHeader_fail in H0. fields in H0. destruct (multipart d0); [|discriminate].
      unfold readPartHeader in H1. destruct (find_line _ _) as [[s ls]|]; [discriminate|].
      injection H1 as <- _. right. left. exact H0.
  - apply headers_fail in H1. destruct (readBody d1) as [[e2|] d2] eqn:H2.
    + intros [= <- <-]. apply readBody_loop_error in H2. fields in H2.
      destruct H2 as [->|H2]; [now right; left|]. right. right. unfold format_error. tauto.
    + fields. intros [= H _]. right. right. now apply Part_validate_error in H.
Qed.

(** X2: the error [Decode] returns is never [io.EOF]: it is "no yenc parts
    found", the error the reader ended with, or the error of a validation or
    of a trailer out of order. *)
Theorem Decode_errors (input : io_Reader) (e : error) :
  Decode input = Err e ->
  is_EOF e = false /\ (e = ErrNoParts \/ e = err input \/ format_error e).
Proof.
  unfold Decode. destruct (run (decoder.new input)) as [r d] eqn:Hrun.
  apply run_ends in Hrun as (d0 & e' & Hrounds & -> & Hlast).
  assert (Hparts : forall e0, Decode_parts d = Err e0 ->
            is_EOF e0 = false /\ (e0 = ErrNoParts \/ e0 = err input \/ format_error e0)).
  { unfold Decode_parts, decoder.validate, format_error.
    intros e0. branches; intros [= <-]; split; try reflexivity; eauto 9. }
  destruct (is_EOF e') eqn:HEOF; cbn [negb]; [apply Hparts|].
  intros [= <-]. split; [exact HEOF|].
  apply round_error in Hlast as [->|[->|H]]; [discriminate | | tauto].
  right. left. now rewrite (rounds_fail Hrounds), run_start_fail.
Qed.

Lemma Decode_errors_witness :
  is_EOF (ErrBodySize 1 2) = false /\
  (ErrBodySize 1 2 = ErrNoParts \/ ErrBodySize 1 2 = EOF \/ format_error (ErrBodySize 1 2)).
Proof.
  apply (@Decode_errors (NewStringReader wrong_size_stream) (ErrBodySize 1 2)).
  vm_compute. reflexivity.
Defined.

(** ** The part Decode returns *)

Lemma rounds_parts (d d' : decoder) : rounds d d' -> exists more, parts d' = parts d ++ more.
Proof.
  induction 1 as [d | d d' d'' Hround _ (more & ->)].
  - exists []. now rewrite app_nil_r.
  - apply round_ok in Hround as (d1 & d2 & H1 & H2 & -> & _).
    apply headers_frame in H1 as (<- & _). apply readBody_frame in H2 as (<- & _).
    fields. exists ([part d2] ++ more). now rewrite app_assoc.
Qed.

(** X3: the part [Decode] returns is the one the first round of [run]
    decoded, with the fields its headers and its trailer gave it, and it has
    passed its validation; the parts after it are checked and dropped. *)
Theorem Decode_returns_first_part (input : io_Reader) (p : Part) :
  Decode input = Ok p ->
  exists d1 d2,
    headers (run_start input) = (None, d1) /\ readBody d1 = (None, d2) /\
    p = part d2 /\ Part.validate p = None.
Proof.
  intros (d & more & Hrun & Hparts)%Decode_Ok.
  apply run_ends in Hrun as (d0 & e' & Hrounds & [= <-] & Hlast).
  apply round_EOF in Hlast as [Hsame _]. rewrite Hsame in Hparts. clear Hsame.
  inversion Hrounds as [? Heq | ? d' ? Hround Hrest]; subst.
  - discriminate.
  - apply round_ok in Hround as (d1 & d2 & H1 & H2 & -> & Hvalid).
    exists d1, d2. apply rounds_parts in Hrest as (more' & Hrest).
    pose proof (headers_frame _ H1) as (Hp1 & _).
    pose proof (readBody_frame _ H2) as (Hp2 & _).
    fields in Hrest. rewrite Hp2, Hp1 in Hrest. cbn in Hrest.
    rewrite Hrest in Hparts. injection Hparts as <- _. now repeat split.
Qed.

Lemma Decode_returns_first_part_witness :
  exists d1 d2,
    headers (run_start (NewStringReader two_part_stream)) = (None, d1) /\
    readBody d1 = (None, d2) /\
    Part.Body (part d2) = [65] /\ Part.Number (part d2) = 1.
Proof.
  destruct (@Decode_returns_first_part (NewStringReader two_part_stream)
              (Part.mk 1 2 1 1 1 (bs "ab.txt") 128 0xd3d99e8b 0xd3d99e8b [65]))
    as (d1 & d2 & H1 & H2 & Hp & _).
  - vm_compute. reflexivity.
  - exists d1, d2. rewrite <- Hp. now repeat split.
Defined.

(** ** The length of a decoded line *)

Lemma decode_spec_length (awaiting : bool) (line : bytes) :
  len (fst (decode_spec awaiting line)) <= len line /\
  len line + Z.b2z awaiting
  <= 2 * len (fst (decode_spec awaiting line)) + Z.b2z (snd (decode_spec awaiting line)) /\
  Forall (fun c => 0 <= c < 256) (fst (decode_spec awaiting line)).
Proof.
  revert awaiting. unfold len.
  induction line as [|c line IH]; intros awaiting; cbn [decode_spec].
  - destruct awaiting; cbn; repeat split; try lia; constructor.
  - pose proof (IH false) as (Hle & Hge & Hall). pose proof (IH true) as (Hle' & Hge' & Hall').
    destruct awaiting; [|destruct (c =? 61)];
      try (destruct (decode_spec false line) as [out a]);
      cbn [fst snd length Z.b2z] in *; repeat split; try lia;
      try (constructor; [apply Z.mod_pos_bound; lia | assumption]); assumption.
Qed.

(** X4: [decode] never lengthens a line, and shortens it to no less than
    half: every byte of the line gives one byte, but each escape marker, which
    gives none, and only a marker at the very end of the line has no byte
    after it.  What it returns are bytes. *)
Theorem decode_length (d : decoder) (line : bytes) :
  let out := fst (decode d line) in
  len out <= len line /\
  len line + Z.b2z (awaitingSpecial d)
  <= 2 * len out + Z.b2z (awaitingSpecial (snd (decode d line))) /\
  Forall (fun c => 0 <= c < 256) out.
Proof.
  rewrite decode_eq. cbn [fst snd]. fields.
  destruct d as [b m t ps p c h aw]. fields. apply decode_spec_length.
Qed.

(** ** What a trailer can change *)

Lemma trailer_update_twice (d : decoder) (s p c s' p' c' : Z) :
  trailer_update (trailer_update d s p c) s' p' c' = trailer_update d s' p' c'.
Proof. reflexivity. Qed.

Lemma trailer_update_same (d : decoder) :
  trailer_update d (Part.Size (part d)) (Part.crc32 (part d)) (crc32 d) = d.
Proof. now destruct d as [b m t ps [] c h aw]. Qed.

Lemma trailerField_update (token : bytes) (d : decoder) :
  let d' := snd (trailerField token d) in
  d' = trailer_update d (Part.Size (part d')) (Part.crc32 (part d')) (crc32 d').
Proof.
  cbv zeta. unfold trailerField, trailerSwitch.
  branches; cbn [snd]; try (symmetry; apply trailer_update_same);
    now destruct d as [? ? ? ? [] ? ? ?].
Qed.

Lemma parseTrailer_loop_update (tokens : list bytes) (d : decoder) :
  let d' := snd (parseTrailer_loop tokens d) in
  d' = trailer_update d (Part.Size (part d')) (Part.crc32 (part d')) (crc32 d').
Proof.
  cbv zeta. revert d.
  induction tokens as [|token tokens IH]; intros d; cbn [parseTrailer_loop snd].
  - symmetry. apply trailer_update_same.
  - unfold and_then. pose proof (trailerField_update token d) as H1. cbv zeta in H1.
    destruct (trailerField token d) as [[e1|] d1]; cbn [snd] in *; [exact H1|].
    rewrite (IH d1) at 1. rewrite H1 at 1. apply trailer_update_twice.
Qed.

(** X5: of a decoder, a [=yend] line changes nothing but the [Size] and the
    expected checksum of the active part and the expected checksum of the
    session, whatever the line holds and whether or not it ends in the "out
    of order" error: the name, the number, the bounds and the body of the
    part, the list of parts and the reader are as they were.  A field of the
    line that comes after one out of order is not read. *)
Theorem parseTrailer_changes_three_fields (line : bytes) (d : decoder) :
  let d' := snd (parseTrailer line d) in
  d' = trailer_update d (Part.Size (part d')) (Part.crc32 (part d')) (crc32 d') /\
  forall before after e d1,
    Split line 32 = before ++ after ->
    parseTrailer_loop before d = (Some e, d1) ->
    parseTrailer line d = (Some e, d1).
Proof.
  cbv zeta. split; [apply parseTrailer_loop_update|].
  unfold parseTrailer. intros before after e d1 ->. revert d.
  induction before as [|token before IH]; intros d; cbn [app parseTrailer_loop]; [easy|].
  unfold and_then. destruct (trailerField token d) as [[e1|] d0]; [easy | apply IH].
Qed.

(** ** The multipart flag *)

Lemma headerField_multipart (d : decoder) (token : bytes) :
  multipart d = true -> multipart (headerField d token) = true.
Proof. unfold headerField, headerSwitch. branches; fields; auto. Qed.

Lemma fold_multipart (f : decoder -> bytes -> decoder) (tokens : list bytes) :
  (forall d token, multipart d = true -> multipart (f d token) = true) ->
  forall d, multipart d = true -> multipart (fold_left f tokens d) = true.
Proof.
  intros Hf. induction tokens as [|token tokens IH]; intros d Hd; cbn [fold_left]; auto.
Qed.

Lemma readHeader_multipart (d d' : decoder) (e : option error) :
  readHeader d = (e, d') -> multipart d = true -> multipart d' = true.
Proof.
  unfold readHeader. destruct (find_line _ _) as [[s ls]|]; intros [= <- <-] Hd; [|exact Hd].
  apply fold_multipart; [exact headerField_multipart|].
  now destruct (SplitN2 _ _) as [|? [|? ?]].
Qed.

Lemma readPartHeader_multipart (d d' : decoder) (e : option error) :
  readPartHeader d = (e, d') -> multipart d' = multipart d.
Proof.
  unfold readPartHeader. destruct (find_line _ _) as [[s ls]|]; intros [= <- <-]; [|reflexivity].
  assert (H : forall tokens d0,
             multipart (fold_left partHeaderField tokens d0) = multipart d0).
  { induction tokens as [|token tokens IH]; intros d0; cbn [fold_left]; [reflexivity|].
    rewrite IH. apply partHeaderField_frame. }
  now rewrite H.
Qed.

Lemma headers_multipart (d d' : decoder) (e : option error) :
  headers d = (e, d') -> multipart d = true -> multipart d' = true.
Proof.
  unfold headers, and_then. intros H Hd.
  destruct (readHeader (set_part d Part.new)) as [[e1|] d1] eqn:H1;
    apply readHeader_multipart in H1; try exact Hd.
  - now injection H as _ <-.
  - rewrite H1 in H. apply readPartHeader_multipart in H. congruence.
Qed.

Lemma round_multipart (d d' : decoder) (e : option error) :
  round d = (e, d') -> multipart d = true -> multipart d' = true.
Proof.
  unfold round, and_then at 1 2 3. intros H Hd.
  destruct (headers d) as [[e1|] d1] eqn:H1; apply headers_multipart in H1; try exact Hd.
  - now injection H as _ <-.
  - destruct (readBody d1) as [[e2|] d2] eqn:H2;
      apply readBody_frame in H2 as (_ & Hm & _); injection H as _ <-; fields; congruence.
Qed.

(** X6: the multipart flag, once a [part=] field of a [=ybegin] line has set
    it, is never cleared: it is still set after any number of rounds of [run],
    so that every later part is looked for behind a [=ypart] line, also one
    whose own [=ybegin] line has no [part=] field. *)
Theorem multipart_is_never_cleared (d d' : decoder) :
  rounds d d' -> multipart d = true ->
  multipart d' = true /\
  forall d1, headers d' = (None, d1) ->
    exists s ls s' ls',
      find_line (bs "=ybegin") (lines (buf d')) = Some (s, ls) /\
      find_line (bs "=ypart") ls = Some (s', ls') /\
      buf d1 = unread ls' (buf d').
Proof.
  intros Hrounds Hd.
  assert (Hd' : multipart d' = true).
  { induction Hrounds as [d | d d' d'' Hround _ IH]; [exact Hd|].
    apply IH. exact (round_multipart _ Hround Hd). }
  split; [exact Hd'|]. intros d1. unfold headers, and_then.
  destruct (readHeader (set_part d' Part.new)) as [[e1|] d0] eqn:H1; [easy|].
  pose proof (readHeader_multipart _ H1 Hd') as ->.
  apply readHeader_ok in H1 as (s & ls & Hfind & Hbuf). fields in Hfind. fields in Hbuf.
  intros H2. apply readPartHeader_ok in H2 as (s' & ls' & Hfind' & ->).
  rewrite Hbuf in *. fields in Hfind'. exists s, ls, s', ls'. now repeat split.
Qed.

Lemma multipart_is_never_cleared_witness :
  multipart (snd (round (snd (round (run_start (NewStringReader
     (two_part_stream ++ unlines [bs "=ybegin size=1 name=c"; bs "k"; bs "=yend size=1"]))))))) = true.
Proof.
  refine (proj1 (@multipart_is_never_cleared
            (snd (round (run_start (NewStringReader
               (two_part_stream ++ unlines [bs "=ybegin size=1 name=c"; bs "k"; bs "=yend size=1"])))))
            _ _ _)).
  - eapply rounds_next; [|apply rounds_here]. vm_compute. reflexivity.
  - vm_compute. reflexivity.
Defined.

(** ** A multipart header without its [=ypart] line *)

(** X7: when the [=ybegin] line of a part sets the multipart flag (or finds
    it set) and no line after it starts with [=ypart], [readPartHeader] reads
    the input to its end, body and [=yend] line included, and the part is
    lost: [Decode] returns the error of the reader if that is not [io.EOF];
    if it is, what the parts before give, and "no yenc parts found" when
    there is none. *)
Theorem missing_part_header (input : io_Reader) (d d0 : decoder) :
  rounds (run_start input) d ->
  readHeader (set_part d Part.new) = (None, d0) ->
  multipart d0 = true ->
  find_line (bs "=ypart") (lines (buf d0)) = None ->
  (is_EOF (err input) = false -> Decode input = Err (err input)) /\
  (is_EOF (err input) = true -> Decode input = Decode_parts (set_multipart d true)) /\
  (is_EOF (err input) = true -> parts d = [] -> Decode input = Err ErrNoParts).
Proof.
  intros Hrounds Hheader Hmulti Hfind.
  assert (Hheaders : headers d = (Some (err input), set_buf d0 (drained (buf d0)))).
  { unfold headers, and_then. rewrite Hheader, Hmulti. unfold readPartHeader.
    rewrite Hfind. apply readHeader_fail in Hheader. fields in Hheader.
    now rewrite Hheader, (rounds_fail Hrounds), run_start_fail. }
  pose proof (run_rounds_error Hrounds (round_headers_error d Hheaders)) as Hrun.
  apply readHeader_frame in Hheader as (Hparts & Hcrc & Hhash & _).
  fields in Hparts. fields in Hcrc. fields in Hhash.
  assert (Hend : is_EOF (err input) = true ->
                 Decode input = Decode_parts (set_multipart d true)).
  { intros HEOF. unfold Decode. rewrite Hrun, HEOF. cbn [negb].
    unfold Decode_parts, decoder.validate. fields. now rewrite Hparts, Hcrc, Hhash, Hmulti. }
  repeat split.
  - intros HEOF. unfold Decode. now rewrite Hrun, HEOF.
  - exact Hend.
  - intros HEOF Hnone. rewrite (Hend HEOF). unfold Decode_parts. fields. now rewrite Hnone.
Qed.

Lemma missing_part_header_witness :
  Decode (NewStringReader missing_ypart_stream) = Err ErrNoParts.
Proof.
  pose (input := NewStringReader missing_ypart_stream).
  refine (proj2 (proj2 (@missing_part_header input (run_start input)
            (snd (readHeader (set_part (run_start input) Part.new))) _ _ _ _)) _ _).
  - apply rounds_here.
  - vm_compute. reflexivity.
  - vm_compute. reflexivity.
  - vm_compute. reflexivity.
  - reflexivity.
  - reflexivity.
Defined.

(** ** The bytes after the last line feed *)

Lemma and_then_rest_blind (f g : action) :
  rest_blind f -> rest_blind g -> rest_blind (f >> g).
Proof.
  intros Hf Hg d r. unfold and_then. destruct (Hf d r) as [r1 ->].
  destruct (f d) as [[e|] d1]; cbn [fst snd]; [now exists r1|]. apply Hg.
Qed.

Lemma fold_rest (f : decoder -> bytes -> decoder) (tokens : list bytes) :
  (forall d token r, f (with_rest d r) token = with_rest (f d token) r) ->
  forall d r, fold_left f tokens (with_rest d r) = with_rest (fold_left f tokens d) r.
Proof.
  intros Hf. induction tokens as [|token tokens IH]; intros d r; cbn [fold_left];
    [reflexivity|]. now rewrite Hf, IH.
Qed.

Lemma headerField_rest (d : decoder) (token : bytes) (r : bytes) :
  headerField (with_rest d r) token = with_rest (headerField d token) r.
Proof. unfold headerField, headerSwitch. now branches. Qed.

Lemma partHeaderField_rest (d : decoder) (token : bytes) (r : bytes) :
  partHeaderField (with_rest d r) token = with_rest (partHeaderField d token) r.
Proof. unfold partHeaderField, partHeaderSwitch. now branches. Qed.

Lemma readHeader_rest_blind : rest_blind readHeader.
Proof.
  intros d r. unfold readHeader. change (lines (buf (with_rest d r))) with (lines (buf d)).
  destruct (find_line _ _) as [[s ls]|]; cbn [fst snd]; [|now exists []].
  exists r. f_equal. rewrite <- fold_rest by exact headerField_rest.
  now destruct (SplitN2 _ _) as [|? [|? ?]].
Qed.

Lemma readPartHeader_rest_blind : rest_blind readPartHeader.
Proof.
  intros d r. unfold readPartHeader.
  change (lines (buf (with_rest d r))) with (lines (buf d)).
  destruct (find_line _ _) as [[s ls]|]; cbn [fst snd]; [|now exists []].
  exists r. f_equal. now rewrite <- fold_rest by exact partHeaderField_rest.
Qed.

Lemma parseTrailer_loop_rest_blind (tokens : list bytes) :
  rest_blind (parseTrailer_loop tokens).
Proof.
  induction tokens as [|token tokens IH]; cbn [parseTrailer_loop].
  - intros d r. now exists r.
  - apply and_then_rest_blind; [|exact IH].
    intros d r. exists r. unfold trailerField, trailerSwitch.
    change (part (with_rest d r)) with (part d). now branches.
Qed.

Lemma readBody_loop_rest_blind (ls : list bytes) : rest_blind (readBody_loop ls).
Proof.
  induction ls as [|raw ls IH]; intros d r; cbn [readBody_loop].
  - now exists [].
  - destruct (has_prefix _ _).
    + apply (parseTrailer_loop_rest_blind _ (set_buf d (unread ls (buf d))) r).
    + destruct (IH (bodyLine d (TrimRight_crlf raw)) r) as [r' H].
      exists r'. rewrite <- H. f_equal. now rewrite !bodyLine_spec.
Qed.

Lemma round_rest_blind : rest_blind round.
Proof.
  unfold round, headers. repeat apply and_then_rest_blind.
  - intros d r. now exists r.
  - exact readHeader_rest_blind.
  - intros d r. change (multipart (with_rest d r)) with (multipart d).
    destruct (multipart d); [apply readPartHeader_rest_blind | now exists r].
  - intros d r.
    exact (readBody_loop_rest_blind (lines (buf d))
             (set_part (set_awaitingSpecial (set_part d (Part.set_Body (part d) [])) false)
                       (Part.set_crcHash (Part.set_Body (part d) []) NewIEEE)) r).
  - intros d r. now exists r.
  - intros d r. now exists r.
Qed.

Lemma run_rest_blind : rest_blind run.
Proof.
  intros d r. unfold run. change (lines (buf (set_crcHash (with_rest d r) NewIEEE)))
    with (lines (buf (set_crcHash d NewIEEE))).
  generalize (S (length (lines (buf (set_crcHash d NewIEEE))))) as fuel.
  change (set_crcHash (with_rest d r) NewIEEE) with (with_rest (set_crcHash d NewIEEE) r).
  generalize (set_crcHash d NewIEEE) as d0. intros d0 fuel. revert d0 r.
  induction fuel as [|fuel IH]; cbn [run_loop].
  - intros d0 r. now exists r.
  - apply and_then_rest_blind; [exact round_rest_blind | exact IH].
Qed.

Lemma split_lines_no_line (r : bytes) : ~ In 10 r -> split_lines r = ([], r).
Proof.
  induction r as [|c r IH]; intros Hr; cbn [split_lines]; [reflexivity|].
  rewrite IH by (intros H; apply Hr; now right).
  destruct (Z.eqb_spec c 10) as [->|_]; [|reflexivity]. exfalso. apply Hr. now left.
Qed.

Lemma split_lines_last_line (s r : bytes) :
  ~ In 10 r ->
  exists l ls, split_lines (s ++ 10 :: r) = (l :: ls, r) /\
               split_lines (s ++ [10]) = (l :: ls, []).
Proof.
  intros Hr. induction s as [|c s (l & ls & IH & IH')]; cbn [app split_lines].
  - rewrite (@split_lines_no_line r Hr). now exists [10], [].
  - rewrite IH, IH'. destruct (c =? 10); eauto.
Qed.

(** X8: [Decode] reads whole lines only.  The bytes after the last line feed
    of the input are never looked at: a last line that is not ended, be it
    the [=yend] line of the only part, is as good as absent.  An input with no
    line feed at all gives "no yenc parts found", whatever error the reader
    ends with. *)
Theorem Decode_skips_unended_line (s r : bytes) (e : error) :
  ~ In 10 r ->
  Decode {| stream := s ++ 10 :: r; err := e |} = Decode {| stream := s ++ [10]; err := e |} /\
  Decode {| stream := r; err := e |} = Err ErrNoParts.
Proof.
  intros Hr. split.
  - destruct (@split_lines_last_line s r Hr) as (l & ls & H & H').
    unfold Decode.
    assert (Hnew : decoder.new {| stream := s ++ 10 :: r; err := e |}
                   = with_rest (decoder.new {| stream := s ++ [10]; err := e |}) r).
    { unfold decoder.new, NewReader. cbn [stream err]. now rewrite H, H'. }
    rewrite Hnew. destruct (run_rest_blind (decoder.new {| stream := s ++ [10]; err := e |}) r)
      as [r' ->].
    now destruct (run _) as [[e'|] d].
  - unfold Decode, run, decoder.new, NewReader. cbn [stream err].
    now rewrite (@split_lines_no_line r Hr).
Qed.

Lemma Decode_skips_unended_line_witness :
  Decode (NewStringReader (bs "=ybegin line=128 size=1 name=a" ++ 10 :: bs "k" ++ 10 :: bs "=yend size=1"))
  = Err ErrNoParts.
Proof.
  refine (eq_trans (proj1 (@Decode_skips_unended_line
            (bs "=ybegin line=128 size=1 name=a" ++ 10 :: bs "k") (bs "=yend size=1") EOF _)) _).
  - vm_compute. intuition discriminate.
  - vm_compute. reflexivity.
Defined.

(** ** The lines before a header *)

Lemma has_prefix_snoc (p l tail : bytes) (c : Z) :
  ~ In c p -> has_prefix p l = false -> p <> [] -> has_prefix p (l ++ c :: tail) = false.
Proof.
  revert l. induction p as [|x p IH]; intros l Hc Hl Hp; [easy|].
  destruct l as [|y l]; cbn [app has_prefix] in *.
  - destruct (Z.eqb_spec x c) as [->|_]; [|reflexivity]. exfalso. apply Hc. now left.
  - destruct (x =? y); [|reflexivity]. cbn [andb] in *.
    destruct p as [|x' p]; [discriminate|].
    apply IH; [intros H; apply Hc; now right | exact Hl | discriminate].
Qed.

Lemma find_line_skip (marker : bytes) (junk ls : list bytes) :
  Forall (fun l => has_prefix marker l = false) junk ->
  find_line marker (junk ++ ls) = find_line marker ls.
Proof.
  induction 1 as [|l junk Hl _ IH]; [reflexivity|].
  cbn [app find_line]. now rewrite Hl.
Qed.

Lemma split_lines_unlines (junk : list bytes) (s : bytes) :
  Forall (fun l => ~ In 10 l) junk ->
  split_lines (unlines junk ++ s)
  = (map (fun l => l ++ [10]) junk ++ fst (split_lines s), snd (split_lines s)).
Proof.
  unfold unlines. induction 1 as [|l junk Hl _ IH]; cbn [map concat app].
  - now destruct (split_lines s).
  - rewrite <- !app_assoc. cbn [app]. now rewrite (split_lines_line _ _ Hl), IH.
Qed.

Lemma and_then_same (f g : action) (d d' : decoder) :
  f d = f d' -> (f >> g) d = (f >> g) d'.
Proof. unfold and_then. now intros ->. Qed.

(** The lines [readHeader] passes over have no part in a round. *)
Lemma round_skip (junk : list bytes) (d : decoder) :
  Forall (fun l => has_prefix (bs "=ybegin") l = false) junk ->
  round (set_buf d (unread (junk ++ lines (buf d)) (buf d))) = round d.
Proof.
  intros Hjunk. unfold round. do 3 apply and_then_same.
  unfold headers. apply and_then_same.
  unfold and_then, readHeader. fields. rewrite find_line_skip by exact Hjunk.
  now destruct (find_line _ _) as [[s ls]|].
Qed.

Lemma run_skip (junk : list bytes) (d : decoder) :
  Forall (fun l => has_prefix (bs "=ybegin") l = false) junk ->
  run (set_buf d (unread (junk ++ lines (buf d)) (buf d))) = run d.
Proof.
  intros Hjunk. unfold run.
  change (run_loop (S (length (junk ++ lines (buf (set_crcHash d NewIEEE)))))
            (set_buf (set_crcHash d NewIEEE)
               (unread (junk ++ lines (buf (set_crcHash d NewIEEE)))
                       (buf (set_crcHash d NewIEEE))))
          = run_loop (S (length (lines (buf (set_crcHash d NewIEEE))))) (set_crcHash d NewIEEE)).
  generalize (set_crcHash d NewIEEE) as d0. intros d0.
  rewrite !run_loop_S, (round_skip d0 Hjunk).
  destruct (round d0) as [[e'|] d'] eqn:Hd'; [reflexivity|].
  apply round_shorter in Hd'. apply run_loop_fuel; [|exact Hd'].
  rewrite length_app. lia.
Qed.

(** X9: the lines before the first [=ybegin] line are skipped unread:
    [Decode] returns for an input what it returns for the input without the
    lines at its head that do not start with [=ybegin]. *)
Theorem Decode_skips_leading_lines (junk : list bytes) (s : bytes) (e : error) :
  Forall (fun l => ~ In 10 l /\ has_prefix (bs "=ybegin") l = false) junk ->
  Decode {| stream := unlines junk ++ s; err := e |} = Decode {| stream := s; err := e |}.
Proof.
  intros Hjunk.
  assert (Hlines : Forall (fun l => ~ In 10 l) junk).
  { eapply Forall_impl; [|exact Hjunk]. now intros l [H _]. }
  assert (Hskip : Forall (fun l => has_prefix (bs "=ybegin") l = false)
                         (map (fun l => l ++ [10]) junk)).
  { apply Forall_map. eapply Forall_impl; [|exact Hjunk]. intros l [_ H].
    apply has_prefix_snoc; [vm_compute; intuition discriminate | exact H | discriminate]. }
  unfold Decode.
  replace (decoder.new {| stream := unlines junk ++ s; err := e |})
    with (set_buf (decoder.new {| stream := s; err := e |})
            (unread (map (fun l => l ++ [10]) junk
                     ++ lines (buf (decoder.new {| stream := s; err := e |})))
                    (buf (decoder.new {| stream := s; err := e |})))).
  - now rewrite (run_skip _ Hskip).
  - unfold decoder.new, NewReader. cbn [stream err].
    rewrite (split_lines_unlines s Hlines). now destruct (split_lines s).
Qed.

Lemma Decode_skips_leading_lines_witness :
  Decode (NewStringReader (unlines [bs "Subject: a (1/1)"; []] ++ wrong_size_stream))
  = Decode (NewStringReader wrong_size_stream).
Proof.
  apply (@Decode_skips_leading_lines [bs "Subject: a (1/1)"; []] wrong_size_stream EOF).
  repeat constructor; vm_compute; intuition discriminate.
Defined.

(** ** The name of the part *)

Lemma headerField_Name (d : decoder) (token : bytes) :
  Part.Name (part (headerField d token)) = Part.Name (part d).
Proof. unfold headerField, headerSwitch. now branches. Qed.

Lemma partHeaderField_Name (d : decoder) (token : bytes) :
  Part.Name (part (partHeaderField d token)) = Part.Name (part d).
Proof. unfold partHeaderField, partHeaderSwitch. now branches. Qed.

Lemma fold_Name (f : decoder -> bytes -> decoder) (tokens : list bytes) :
  (forall d token, Part.Name (part (f d token)) = Part.Name (part d)) ->
  forall d, Part.Name (part (fold_left f tokens d)) = Part.Name (part d).
Proof.
  intros Hf. induction tokens as [|token tokens IH]; intros d; cbn [fold_left];
    [reflexivity|]. now rewrite IH, Hf.
Qed.

Lemma readHeader_Name (d d' : decoder) (s : bytes) (ls : list bytes) :
  find_line (bs "=ybegin") (lines (buf d)) = Some (s, ls) ->
  readHeader d = (None, d') ->
  Part.Name (part d')
  = match cut (skipn 7 s) (bs "name=") with
    | Some (_, after) => TrimSpace after
    | None => Part.Name (part d)
    end.
Proof.
  unfold readHeader, SplitN2. intros ->. intros [= <-].
  rewrite fold_Name by exact headerField_Name.
  now destruct (cut _ _) as [[before after]|].
Qed.

Lemma readPartHeader_Name (d d' : decoder) (e : option error) :
  readPartHeader d = (e, d') -> Part.Name (part d') = Part.Name (part d).
Proof.
  unfold readPartHeader. destruct (find_line _ _) as [[s ls]|]; intros [= <- <-];
    [|reflexivity]. now rewrite fold_Name by exact partHeaderField_Name.
Qed.

Lemma readBody_loop_Name (ls : list bytes) (d d' : decoder) (e : option error) :
  readBody_loop ls d = (e, d') -> Part.Name (part d') = Part.Name (part d).
Proof.
  revert d. induction ls as [|raw ls IH]; intros d; cbn [readBody_loop].
  - now intros [= <- <-].
  - destruct (has_prefix _ _).
    + intros H. unfold parseTrailer in H.
      pose proof (parseTrailer_loop_update (Split (TrimRight_crlf raw) 32)
                    (set_buf d (unread ls (buf d)))) as Hup.
      cbv zeta in Hup. rewrite H in Hup. cbn [snd] in Hup. now rewrite Hup.
    + intros H. apply IH in H. now rewrite bodyLine_spec in H.
Qed.

(** X10: the [Name] of the part [Decode] returns is what follows the first
    [name=] of the first line of the input that starts with [=ybegin], to the
    end of that line and without the white space around it: fields written
    after the name are part of the name.  With no [name=] on that line the
    name is empty. *)
Theorem Decode_name (input : io_Reader) (p : Part) :
  Decode input = Ok p ->
  exists s ls,
    find_line (bs "=ybegin") (lines (NewReader input)) = Some (s, ls) /\
    Part.Name p = match cut (skipn 7 s) (bs "name=") with
                  | Some (_, after) => TrimSpace after
                  | None => []
                  end.
Proof.
  intros (d & more & Hrun & Hparts)%Decode_Ok.
  apply run_ends in Hrun as (d0 & e' & Hrounds & [= <-] & Hlast).
  apply round_EOF in Hlast as [Hsame _]. rewrite Hsame in Hparts. clear Hsame.
  inversion Hrounds as [? Heq | ? d' ? Hround Hrest]; subst; [discriminate|].
  apply round_ok in Hround as (d1 & d2 & H1 & H2 & -> & _).
  apply rounds_parts in Hrest as (more' & Hrest).
  pose proof (headers_frame _ H1) as (Hp1 & _).
  pose proof (readBody_frame _ H2) as (Hp2 & _).
  fields in Hrest. rewrite Hp2, Hp1 in Hrest. cbn in Hrest.
  rewrite Hrest in Hparts. injection Hparts as <- _.
  apply readBody_loop_Name in H2. fields in H2. rewrite H2.
  unfold headers, and_then in H1.
  destruct (readHeader (set_part (run_start input) Part.new)) as [[e1|] d3] eqn:H3;
    [discriminate|].
  pose proof (readHeader_ok _ H3) as (s & ls & Hfind & _).
  exists s, ls. split; [exact Hfind|].
  assert (Hname : Part.Name (part d1) = Part.Name (part d3)).
  { destruct (multipart d3); [now apply readPartHeader_Name in H1 | now injection H1 as <-]. }
  rewrite Hname. apply (readHeader_Name _ Hfind H3).
Qed.

Lemma Decode_name_witness :
  exists s ls,
    find_line (bs "=ybegin") (lines (NewReader (NewStringReader two_part_stream)))
    = Some (s, ls) /\
    bs "ab.txt"
    = match cut (skipn 7 s) (bs "name=") with
      | Some (_, after) => TrimSpace after
      | None => []
      end.
Proof.
  apply (@Decode_name (NewStringReader two_part_stream)
           (Part.mk 1 2 1 1 1 (bs "ab.txt") 128 0xd3d99e8b 0xd3d99e8b [65])).
  vm_compute. reflexivity.
Defined.

(** ** parseHeaders *)

Lemma bytes_eqb_refl (s : bytes) : bytes_eqb s s = true.
Proof. induction s as [|x s IH]; simpl; [reflexivity|]. now rewrite Z.eqb_refl. Qed.

Lemma bytes_eqb_neq (s t : bytes) : s <> t -> bytes_eqb s t = false.
Proof.
  intros H. destruct (bytes_eqb s t) eqn:E; [|reflexivity].
  now apply bytes_eqb_eq in E.
Qed.

Lemma lookup_assign (values : values_map) (key value key' : bytes) :
  lookup (assign values key value) key'
  = if bytes_eqb key key' then Some value else lookup values key'.
Proof.
  induction values as [|[k v] values IH]; cbn [assign lookup]; [reflexivity|].
  destruct (bytes_eqb k key) eqn:E; cbn [lookup].
  - apply bytes_eqb_eq in E as ->. now destruct (bytes_eqb key key').
  - rewrite IH. destruct (bytes_eqb k key') eqn:E'; [|reflexivity].
    apply bytes_eqb_eq in E' as ->. now rewrite bytes_eqb_neq by (intros ->; now rewrite bytes_eqb_refl in E).
Qed.

Lemma cut_eq (s sep : bytes) :
  cut s sep
  = if has_prefix sep s then Some ([], skipn (length sep) s)
    else match s with
         | [] => None
         | c :: s' => match cut s' sep with
                      | Some (before, after) => Some (c :: before, after)
                      | None => None
                      end
         end.
Proof. now destruct s. Qed.

Lemma has_prefix_sound (p s : bytes) : has_prefix p s = true -> s = p ++ skipn (length p) s.
Proof.
  revert s. induction p as [|x p IH]; intros [|y s]; simpl; try easy.
  intros [Hx H]%andb_prop. apply Z.eqb_eq in Hx as ->. f_equal. now apply IH.
Qed.

Lemma has_prefix_self (p s : bytes) : has_prefix p (p ++ s) = true.
Proof. induction p as [|x p IH]; simpl; [reflexivity|]. now rewrite Z.eqb_refl. Qed.

Lemma cut_sound (s sep before after : bytes) :
  cut s sep = Some (before, after) -> s = before ++ sep ++ after.
Proof.
  revert before. induction s as [|c s IH]; intros before; rewrite cut_eq.
  - destruct (has_prefix sep []) eqn:E; [|easy]. intros [= <- <-]. now apply has_prefix_sound.
  - destruct (has_prefix sep (c :: s)) eqn:E.
    + intros [= <- <-]. now apply has_prefix_sound.
    + destruct (cut s sep) as [[b a]|]; [|easy]. intros [= <- <-].
      cbn [app]. f_equal. now apply IH.
Qed.

(** [cut] finds the first occurrence. *)
Lemma cut_first (x sep z : bytes) :
  exists before after,
    cut (x ++ sep ++ z) sep = Some (before, after) /\ (length before <= length x)%nat.
Proof.
  induction x as [|c x (b & a & IH & Hle)]; rewrite cut_eq; cbn [app].
  - rewrite has_prefix_self. eexists _, _. split; [reflexivity | simpl; lia].
  - destruct (has_prefix sep (c :: x ++ sep ++ z)).
    + eexists _, _. split; [reflexivity | simpl; lia].
    + rewrite IH. eexists _, _. split; [reflexivity | simpl; lia].
Qed.

Lemma cut_None (s sep : bytes) :
  cut s sep = None -> forall x z, s <> x ++ sep ++ z.
Proof.
  intros H x z ->. destruct (cut_first x sep z) as (b & a & H' & _). congruence.
Qed.

Lemma cut_before (s sep before after : bytes) :
  sep <> [] -> cut s sep = Some (before, after) ->
  forall x z, before <> x ++ sep ++ z.
Proof.
  intros Hsep H x z ->. pose proof (cut_sound _ _ H) as ->.
  rewrite <- !app_assoc in H.
  destruct (cut_first x sep (z ++ sep ++ after)) as (b & a & H' & Hle).
  rewrite H' in H. injection H as -> _. rewrite !length_app in Hle.
  destruct sep; [easy | simpl in Hle; lia].
Qed.

(** The pieces of [Split] and what [TrimSpace] returns are parts of the
    string. *)
Lemma Split_hd (s : bytes) (sep : Z) :
  exists piece pieces z, Split s sep = piece :: pieces /\ s = piece ++ z.
Proof.
  induction s as [|c s (p & ps & z & IH & Hs)]; cbn [Split].
  - now exists [], [], [].
  - destruct (c =? sep).
    + now exists [], (Split s sep), (c :: s).
    + rewrite IH. exists (c :: p), ps, z. now rewrite Hs at 1.
Qed.

Lemma Split_piece (s : bytes) (sep : Z) (piece : bytes) :
  In piece (Split s sep) -> exists x z, s = x ++ piece ++ z.
Proof.
  induction s as [|c s IH]; cbn [Split].
  - intros [<-|[]]. now exists [], [].
  - destruct (c =? sep).
    + intros [<-|H]; [now exists [], (c :: s)|].
      destruct (IH H) as (x & z & ->). now exists (c :: x), z.
    + destruct (Split_hd s sep) as (p & ps & z & Hsplit & Hs). rewrite Hsplit in *.
      intros [<-|H].
      * exists [], z. cbn [app]. now rewrite Hs at 1.
      * destruct (IH (or_intror H)) as (x & z' & ->). now exists (c :: x), z'.
Qed.

Lemma trim_left_fuel_suffix (n : nat) (s : bytes) : exists x, s = x ++ trim_left_fuel n s.
Proof.
  revert s. induction n as [|n IH]; intros s; cbn [trim_left_fuel]; [now exists []|].
  destruct (space_width s) as [|w]; [now exists []|].
  destruct (IH (skipn (S w) s)) as (x & Hx). exists (firstn (S w) s ++ x).
  rewrite <- app_assoc, <- Hx. symmetry. apply firstn_skipn.
Qed.

Lemma trim_left_rev_fuel_suffix (n : nat) (r : bytes) :
  exists x, r = x ++ trim_left_rev_fuel n r.
Proof.
  revert r. induction n as [|n IH]; intros r; cbn [trim_left_rev_fuel]; [now exists []|].
  destruct (space_width_rev r) as [|w]; [now exists []|].
  destruct (IH (skipn (S w) r)) as (x & Hx). exists (firstn (S w) r ++ x).
  rewrite <- app_assoc, <- Hx. symmetry. apply firstn_skipn.
Qed.

Lemma TrimSpace_part (s : bytes) : exists x z, s = x ++ TrimSpace s ++ z.
Proof.
  unfold TrimSpace, TrimRightSpace, TrimLeftSpace.
  destruct (trim_left_fuel_suffix (length s) s) as (x & Hx).
  set (t := trim_left_fuel (length s) s) in *.
  destruct (trim_left_rev_fuel_suffix (length t) (rev t)) as (y & Hy).
  exists x, (rev y). rewrite Hx at 1. f_equal.
  rewrite <- rev_app_distr, <- Hy. symmetry. apply rev_involutive.
Qed.

(** A header in which [name=] does not occur leaves the entry of [name]
    alone. *)
Lemma parseHeader_name (values : values_map) (header : bytes) :
  (forall x z, header <> x ++ bs "name=" ++ z) ->
  lookup (parseHeader values header) (bs "name") = lookup values (bs "name").
Proof.
  intros Hno. unfold parseHeader, SplitN2.
  destruct (cut (TrimSpace header) (bs "=")) as [[key value]|] eqn:Hcut; [|reflexivity].
  rewrite lookup_assign. destruct (bytes_eqb key (bs "name")) eqn:E; [|reflexivity].
  apply bytes_eqb_eq in E as ->. apply cut_sound in Hcut.
  destruct (TrimSpace_part header) as (x & z & Hheader). rewrite Hcut in Hheader.
  exfalso. apply (Hno x (value ++ z)). rewrite Hheader.
  now rewrite <- !app_assoc.
Qed.

Lemma fold_parseHeader_name (s : bytes) (values : values_map) :
  (forall x z, s <> x ++ bs "name=" ++ z) ->
  lookup (fold_left parseHeader (Split s 32) values) (bs "name") = lookup values (bs "name").
Proof.
  intros Hno.
  assert (H : forall tokens, (forall t, In t tokens -> In t (Split s 32)) ->
              forall values, lookup (fold_left parseHeader tokens values) (bs "name")
                             = lookup values (bs "name")).
  { induction tokens as [|token tokens IH]; intros Hin values0; cbn [fold_left];
      [reflexivity|].
    rewrite IH by (intros t Ht; apply Hin; now right).
    apply parseHeader_name. intros x z ->.
    destruct (@Split_piece s 32 (x ++ bs "name=" ++ z)) as (x' & z' & Hs);
      [apply Hin; now left|].
    apply (Hno (x' ++ x) (z ++ z')). rewrite Hs. now rewrite <- !app_assoc. }
  now apply H.
Qed.

(** X11: the entry [name] of the map [parseHeaders] returns is the input
    from its first [name=] to its end, the [name=] included and nothing
    trimmed; there is no such entry when [name=] does not occur in the input.
    No field before the name can set the entry. *)
Theorem parseHeaders_name (input : bytes) :
  lookup (parseHeaders input) (bs "name")
  = match cut input (bs "name=") with
    | Some (_, after) => Some (bs "name=" ++ after)
    | None => None
    end.
Proof.
  unfold parseHeaders, Index.
  destruct (cut input (bs "name=")) as [[before after]|] eqn:Hcut.
  - pose proof (len_nonneg before) as Hlen.
    replace (-1 <? len before) with true by (symmetry; apply Z.ltb_lt; lia).
    unfold len. rewrite Nat2Z.id. pose proof (cut_sound _ _ Hcut) as ->.
    rewrite firstn_app, firstn_all, Nat.sub_diag, firstn_O, app_nil_r.
    rewrite skipn_app, skipn_all, Nat.sub_diag. cbn [app skipn].
    rewrite fold_parseHeader_name; [now cbn|].
    apply (@cut_before (before ++ bs "name=" ++ after) (bs "name=") before after);
      [discriminate | exact Hcut].
  - change (-1 <? -1) with false. lazy beta iota. unfold len. rewrite Nat2Z.id, firstn_all.
    rewrite fold_parseHeader_name; [reflexivity|]. now apply cut_None.
Qed.

Lemma cut_byte (key value : bytes) (c : Z) :
  ~ In c key -> cut (key ++ c :: value) [c] = Some (key, value).
Proof.
  induction key as [|x key IH]; intros Hc; rewrite cut_eq; cbn [app has_prefix].
  - now rewrite Z.eqb_refl.
  - replace (c =? x) with false.
    + cbn [andb]. rewrite IH; [reflexivity|]. intros H. apply Hc. now right.
    + symmetry. apply Z.eqb_neq. intros ->. apply Hc. now left.
Qed.

Lemma parseHeader_field (values : values_map) (key value : bytes) :
  Forall plain key -> ~ In 61 key -> Forall plain value ->
  parseHeader values (key ++ 61 :: value) = assign values key value.
Proof.
  intros Hkey Hno Hvalue. unfold parseHeader, SplitN2. rewrite TrimSpace_plain.
  - change (bs "=") with [61]. now rewrite cut_byte.
  - apply Forall_app. split; [exact Hkey|]. constructor; [unfold plain; lia | exact Hvalue].
Qed.

Lemma Split_tokens (tokens : list bytes) (t s : bytes) :
  ~ In 32 t -> Forall (fun x => ~ In 32 x) tokens -> ~ In 32 s ->
  Split (t ++ concat (map (fun x => 32 :: x) tokens) ++ 32 :: s) 32 = t :: tokens ++ [s].
Proof.
  intros Ht Htokens Hs. revert t Ht.
  induction Htokens as [|x tokens Hx _ IH]; intros t Ht; cbn [map concat app].
  - rewrite Split_app_sep by exact Ht. now rewrite Split_no_sep.
  - rewrite Split_app_sep by exact Ht. rewrite <- app_assoc.
    now rewrite IH.
Qed.

(** A [name=] after a space is the first one of a line when there is none
    before the space. *)
Lemma cut_name_after (x after : bytes) :
  cut x (bs "name=") = None ->
  cut (x ++ 32 :: bs "name=" ++ after) (bs "name=") = Some (x ++ [32], after).
Proof.
  induction x as [|c x IH]; [reflexivity|].
  rewrite cut_eq. destruct (has_prefix (bs "name=") (c :: x)) eqn:Hc; [easy|].
  destruct (cut x (bs "name=")) as [[b a]|] eqn:Hx; [easy|]. intros _.
  cbn [app]. apply cut_cons; [|now apply IH].
  change (c :: x ++ 32 :: bs "name=" ++ after) with ((c :: x) ++ 32 :: bs "name=" ++ after).
  apply has_prefix_snoc; [vm_compute; intuition discriminate | exact Hc | discriminate].
Qed.

Lemma lookup_fold_assign (fields : list (bytes * bytes)) (values : values_map) (key : bytes) :
  lookup (fold_left (fun m kv => assign m (fst kv) (snd kv)) fields values) key
  = match last_value fields key with
    | Some v => Some v
    | None => lookup values key
    end.
Proof.
  revert values. induction fields as [|[k v] fields IH]; intros values;
    cbn [fold_left last_value fst snd]; [reflexivity|].
  rewrite IH, lookup_assign. now destruct (last_value fields key), (bytes_eqb k key).
Qed.

Lemma fold_parseHeader_fields (fields : list (bytes * bytes)) (values : values_map) :
  Forall (fun kv => Forall plain (fst kv) /\ ~ In 61 (fst kv) /\ Forall plain (snd kv))
         fields ->
  fold_left parseHeader (map (fun kv => fst kv ++ 61 :: snd kv) fields) values
  = fold_left (fun m kv => assign m (fst kv) (snd kv)) fields values.
Proof.
  intros H. revert values.
  induction H as [|[k v] fields (Hk & Hno & Hv) _ IH]; intros values;
    cbn [map fold_left fst snd] in *; [reflexivity|].
  now rewrite parseHeader_field, IH.
Qed.

(** X12: of a header line made of fields [key=value] after single spaces
    and a [name=] behind them, [parseHeaders] returns under every key other
    than [name] the value of the last field with that key, whole (a value may
    hold [=]), and nothing under a key no field has.  The keys and values are
    printable without spaces, the keys have no [=], and [name=] does not occur
    in the fields. *)
Theorem parseHeaders_fields (fields : list (bytes * bytes)) (name key : bytes) :
  Forall (fun kv => Forall plain (fst kv) /\ ~ In 61 (fst kv) /\ Forall plain (snd kv))
         fields ->
  cut (header_fields fields) (bs "name=") = None ->
  key <> bs "name" ->
  lookup (parseHeaders (header_fields fields ++ bs " name=" ++ name)) key
  = last_value fields key.
Proof.
  intros Hfields Hcut Hkey. unfold parseHeaders, Index.
  change (bs " name=" ++ name) with (32 :: bs "name=" ++ name).
  rewrite (cut_name_after _ name Hcut).
  pose proof (len_nonneg (header_fields fields ++ [32])) as Hlen.
  replace (-1 <? len (header_fields fields ++ [32])) with true
    by (symmetry; apply Z.ltb_lt; lia).
  unfold len. rewrite Nat2Z.id.
  replace (header_fields fields ++ 32 :: bs "name=" ++ name)
    with ((header_fields fields ++ [32]) ++ bs "name=" ++ name)
    by now rewrite <- app_assoc.
  rewrite firstn_app, firstn_all, Nat.sub_diag, firstn_O, app_nil_r.
  rewrite skipn_app, skipn_all, Nat.sub_diag. cbn [app skipn].
  assert (Hsplit : Split (header_fields fields ++ [32]) 32
                   = [] :: map (fun kv => fst kv ++ 61 :: snd kv) fields ++ [[]]).
  { unfold header_fields.
    rewrite <- (map_map (fun kv => fst kv ++ 61 :: snd kv) (fun x => 32 :: x)).
    apply (@Split_tokens _ [] []); [easy | | easy].
    apply Forall_map. eapply Forall_impl; [|exact Hfields].
    intros [k v] (Hk & _ & Hv). cbn [fst snd].
    assert (Hplain : forall l, Forall plain l -> ~ In 32 l).
    { intros l Hl Hin. rewrite Forall_forall in Hl. apply Hl in Hin. unfold plain in Hin. lia. }
    intros [H|[H|H]]%in_app_or; [now apply (Hplain k) | discriminate | now apply (Hplain v)]. }
  rewrite Hsplit. cbn [fold_left]. change (parseHeader ?m []) with m.
  rewrite fold_left_app. cbn [fold_left]. change (parseHeader ?m []) with m.
  rewrite fold_parseHeader_fields by exact Hfields.
  rewrite lookup_fold_assign. destruct (last_value fields key); [reflexivity|].
  cbn [assign lookup]. rewrite bytes_eqb_neq; [reflexivity | congruence].
Qed.

Lemma parseHeaders_fields_witness :
  lookup (parseHeaders (bs " line=128 size=5 crc=a=b size=7 name=a b.bin")) (bs "size")
  = Some (bs "7").
Proof.
  apply (@parseHeaders_fields
           [(bs "line", bs "128"); (bs "size", bs "5"); (bs "crc", bs "a=b");
            (bs "size", bs "7")]
           (bs "a b.bin") (bs "size")).
  - repeat constructor; unfold plain; cbn; intuition (try discriminate; try lia).
  - vm_compute. reflexivity.
  - discriminate.
Defined.

(** ** The line ends *)

Lemma has_prefix_line_end (p l w : bytes) :
  Forall (fun c => line_end c = false) p -> forallb line_end w = true ->
  has_prefix p (l ++ w) = has_prefix p l.
Proof.
  intros Hp Hw. revert l.
  induction Hp as [|x p Hx _ IH]; intros l; [reflexivity|].
  destruct l as [|y l]; cbn [app has_prefix]; [|now rewrite IH].
  destruct w as [|c w]; [reflexivity|]. cbn [has_prefix forallb] in *.
  apply andb_prop in Hw as [Hc _].
  destruct (Z.eqb_spec x c) as [->|_]; [congruence | reflexivity].
Qed.

Lemma TrimRight_crlf_app (l w : bytes) :
  forallb line_end w = true -> TrimRight_crlf (l ++ w) = TrimRight_crlf l.
Proof.
  intros Hw. unfold TrimRight_crlf. rewrite rev_app_distr, drop_crlf_app; [reflexivity|].
  rewrite forallb_forall in *. intros c Hc. apply Hw. now apply in_rev.
Qed.

(** A line is what [TrimRight] leaves of it followed by line ends. *)
Lemma TrimRight_crlf_split (l : bytes) :
  exists w, l = TrimRight_crlf l ++ w /\ forallb line_end w = true.
Proof.
  unfold TrimRight_crlf.
  assert (H : forall r, exists w, rev r = rev (drop_crlf r) ++ w /\
                                  forallb line_end w = true).
  { induction r as [|c r (w & IH & Hw)]; [now exists []|].
    cbn [drop_crlf]. fold (line_end c). destruct (line_end c) eqn:Hc.
    - exists (w ++ [c]). cbn [rev]. rewrite IH at 1. rewrite <- app_assoc.
      split; [reflexivity|]. rewrite forallb_app, Hw. cbn. now rewrite Hc.
    - exists []. now rewrite app_nil_r. }
  destruct (H (rev l)) as (w & Hl & Hw). rewrite rev_involutive in Hl. now exists w.
Qed.

Lemma space_width_snoc (s : bytes) (c : Z) :
  s <> [] -> 0 <= c < 128 -> space_width (s ++ [c]) = space_width s.
Proof.
  intros Hs Hc. unfold space_width.
  destruct s as [|c0 [|c1 [|c2 s]]]; [easy | | |]; cbn [app]; try reflexivity.
  - destruct (ascii_space c0); [reflexivity|].
    replace (c =? 133) with false by lia. replace (c =? 160) with false by lia.
    now rewrite andb_false_r.
  - destruct (ascii_space c0); [reflexivity|].
    destruct ((c0 =? 194) && ((c1 =? 133) || (c1 =? 160))); [reflexivity|].
    replace (c =? 128) with false by lia. replace (c =? 159) with false by lia.
    replace (c =? 168) with false by lia. replace (c =? 169) with false by lia.
    replace (c =? 175) with false by lia. replace (128 <=? c) with false by lia.
    cbn [orb andb]. now rewrite !andb_false_r.
Qed.

Lemma trim_left_fuel_snoc (n : nat) (s : bytes) (c : Z) :
  ascii_space c = true -> 0 <= c < 128 -> (length s < n)%nat ->
  trim_left_fuel n (s ++ [c])
  = match trim_left_fuel n s with
    | [] => []
    | t => t ++ [c]
    end.
Proof.
  intros Hc Hrange. revert s. induction n as [|n IH]; intros s Hn; [lia|].
  destruct s as [|c0 s].
  - cbn [app trim_left_fuel space_width]. rewrite Hc. cbn [skipn]. now destruct n.
  - cbn [trim_left_fuel]. rewrite <- app_comm_cons at 1.
    change (c0 :: s ++ [c]) with ((c0 :: s) ++ [c]).
    rewrite space_width_snoc by (easy || exact Hrange).
    pose proof (space_width_bound (c0 :: s)) as Hb.
    destruct (space_width (c0 :: s)) as [|w] eqn:Hw; [reflexivity|].
    rewrite skipn_app. replace (S w - length (c0 :: s))%nat with 0%nat by lia.
    cbn [skipn]. apply IH. rewrite length_skipn. simpl in *. lia.
Qed.

Lemma trim_left_fuel_more (n m : nat) (s : bytes) :
  (length s <= n)%nat -> (length s <= m)%nat -> trim_left_fuel n s = trim_left_fuel m s.
Proof.
  revert m s. induction n as [|n IH]; intros [|m] s Hn Hm; cbn [trim_left_fuel].
  - reflexivity.
  - destruct s; [reflexivity | simpl in Hn; lia].
  - destruct s; [reflexivity | simpl in Hm; lia].
  - pose proof (space_width_bound s) as Hb.
    destruct (space_width s) as [|w]; [reflexivity|].
    apply IH; rewrite length_skipn; lia.
Qed.

(** A line end after a string is white space at its end. *)
Lemma TrimSpace_snoc (s : bytes) (c : Z) :
  line_end c = true -> TrimSpace (s ++ [c]) = TrimSpace s.
Proof.
  intros Hc.
  assert (Hspace : ascii_space c = true /\ 0 <= c < 128).
  { unfold line_end in Hc. apply orb_prop in Hc as [H|H]; apply Z.eqb_eq in H as ->;
      split; (reflexivity || lia). }
  destruct Hspace as [Hspace Hrange].
  unfold TrimSpace, TrimLeftSpace. rewrite length_app. cbn [length].
  rewrite trim_left_fuel_snoc by (easy || lia).
  rewrite (@trim_left_fuel_more (length s + 1) (length s) s) by lia.
  destruct (trim_left_fuel (length s) s) as [|c0 t]; [reflexivity|].
  unfold TrimRightSpace. rewrite length_app, rev_app_distr. cbn [length rev app].
  rewrite Nat.add_1_r. cbn [trim_left_rev_fuel space_width_rev]. rewrite Hspace.
  reflexivity.
Qed.

Lemma TrimSpace_line_end (s w : bytes) :
  forallb line_end w = true -> TrimSpace (s ++ w) = TrimSpace s.
Proof.
  revert s. induction w as [|c w IH]; intros s Hw; [now rewrite app_nil_r|].
  cbn [forallb] in Hw. apply andb_prop in Hw as [Hc Hw].
  change (s ++ c :: w) with (s ++ [c] ++ w). rewrite app_assoc, IH by exact Hw.
  now apply TrimSpace_snoc.
Qed.

Lemma readHeader_begin_line (d : decoder) :
  readHeader d
  = match find_line (bs "=ybegin") (lines (buf d)) with
    | None => (Some EOF, set_buf d (drained (buf d)))
    | Some (s, ls) => (None, begin_line s (set_buf d (unread ls (buf d))))
    end.
Proof. reflexivity. Qed.

Lemma readPartHeader_part_line (d : decoder) :
  readPartHeader d
  = match find_line (bs "=ypart") (lines (buf d)) with
    | None => (Some (fail (buf d)), set_buf d (drained (buf d)))
    | Some (s, ls) => (None, part_line s (set_buf d (unread ls (buf d))))
    end.
Proof. reflexivity. Qed.

Lemma cut_line_ends (w sep : bytes) (c : Z) :
  line_end c = false -> forallb line_end w = true -> cut w (c :: sep) = None.
Proof.
  intros Hc. induction w as [|x w IH]; intros Hw; [reflexivity|].
  cbn [forallb] in Hw. apply andb_prop in Hw as [Hx Hw].
  rewrite cut_eq, IH by exact Hw. cbn [has_prefix].
  destruct (Z.eqb_spec c x) as [->|_]; [congruence | reflexivity].
Qed.

Lemma cut_line_end (s w sep : bytes) :
  Forall (fun c => line_end c = false) sep -> sep <> [] -> forallb line_end w = true ->
  cut (s ++ w) sep
  = match cut s sep with
    | Some (before, after) => Some (before, after ++ w)
    | None => None
    end.
Proof.
  intros Hsep Hne Hw. induction s as [|c s IH].
  - cbn [app]. destruct sep as [|x sep]; [easy|]. inversion Hsep; subst.
    now rewrite cut_line_ends.
  - cbn [app]. rewrite (cut_eq (c :: s ++ w)), (cut_eq (c :: s)), IH.
    change (c :: s ++ w) with ((c :: s) ++ w).
    rewrite has_prefix_line_end by assumption.
    destruct (has_prefix sep (c :: s)) eqn:Hp.
    + apply has_prefix_sound in Hp. rewrite Hp at 1.
      rewrite <- app_assoc, skipn_app, skipn_all, Nat.sub_diag. reflexivity.
    + now destruct (cut s sep) as [[b a]|].
Qed.

Lemma Split_line_end (s w : bytes) :
  forallb line_end w = true ->
  exists pieces piece,
    Split s 32 = pieces ++ [piece] /\ Split (s ++ w) 32 = pieces ++ [piece ++ w].
Proof.
  intros Hw. induction s as [|c s (ps & p & IH & IH')]; cbn [app Split].
  - exists [], []. split; [reflexivity|]. cbn [app]. apply Split_no_sep.
    intros Hin. rewrite forallb_forall in Hw. now apply Hw in Hin.
  - rewrite IH, IH'. destruct (c =? 32).
    + now exists ([] :: ps), p.
    + destruct ps as [|p0 ps]; cbn [app]; [now exists [], (c :: p) | now exists ((c :: p0) :: ps), p].
Qed.

Lemma fold_line_end (f : decoder -> bytes -> decoder) (s w : bytes) (d : decoder) :
  (forall d token, f d (token ++ w) = f d token) -> forallb line_end w = true ->
  fold_left f (Split (s ++ w) 32) d = fold_left f (Split s 32) d.
Proof.
  intros Hf Hw. destruct (Split_line_end s w Hw) as (ps & p & -> & ->).
  rewrite !fold_left_app. cbn [fold_left]. apply Hf.
Qed.

Lemma headerField_line_end (w : bytes) (d : decoder) (token : bytes) :
  forallb line_end w = true -> headerField d (token ++ w) = headerField d token.
Proof. intros Hw. unfold headerField. now rewrite TrimSpace_line_end. Qed.

Lemma partHeaderField_line_end (w : bytes) (d : decoder) (token : bytes) :
  forallb line_end w = true -> partHeaderField d (token ++ w) = partHeaderField d token.
Proof. intros Hw. unfold partHeaderField. now rewrite TrimSpace_line_end. Qed.

Lemma skipn_prefix (p s w : bytes) :
  has_prefix p s = true -> skipn (length p) (s ++ w) = skipn (length p) s ++ w.
Proof.
  intros Hp. apply has_prefix_sound in Hp. rewrite Hp at 1.
  now rewrite <- app_assoc, skipn_app, skipn_all, Nat.sub_diag.
Qed.

Lemma begin_line_line_end (s w : bytes) (d : decoder) :
  has_prefix (bs "=ybegin") s = true -> forallb line_end w = true ->
  begin_line (s ++ w) d = begin_line s d.
Proof.
  intros Hs Hw. unfold begin_line, SplitN2.
  pose proof (@skipn_prefix (bs "=ybegin") s w Hs) as Hskip.
  change (length (bs "=ybegin")) with 7%nat in Hskip. rewrite Hskip.
  rewrite cut_line_end; [|repeat constructor | discriminate | exact Hw].
  destruct (cut (skipn 7 s) (bs "name=")) as [[before after]|]; cbn [hd].
  - now rewrite TrimSpace_line_end.
  - apply fold_line_end; [|exact Hw]. intros d0 token. now apply headerField_line_end.
Qed.

Lemma part_line_line_end (s w : bytes) (d : decoder) :
  has_prefix (bs "=ypart") s = true -> forallb line_end w = true ->
  part_line (s ++ w) d = part_line s d.
Proof.
  intros Hs Hw. unfold part_line.
  pose proof (@skipn_prefix (bs "=ypart") s w Hs) as Hskip.
  change (length (bs "=ypart")) with 6%nat in Hskip. rewrite Hskip.
  apply fold_line_end; [|exact Hw]. intros d0 token. now apply partHeaderField_line_end.
Qed.

Lemma same_line_prefix (p l1 l2 : bytes) :
  Forall (fun c => line_end c = false) p -> same_line l1 l2 ->
  has_prefix p l1 = has_prefix p l2.
Proof.
  intros Hp Hsame. unfold same_line in Hsame.
  destruct (TrimRight_crlf_split l1) as (w1 & H1 & Hw1).
  destruct (TrimRight_crlf_split l2) as (w2 & H2 & Hw2).
  rewrite <- Hsame in H2. clear Hsame. revert H1 H2.
  generalize (TrimRight_crlf l1) as t. intros t -> ->.
  now rewrite !has_prefix_line_end.
Qed.

Lemma begin_line_same (s1 s2 : bytes) (d : decoder) :
  same_line s1 s2 -> has_prefix (bs "=ybegin") s1 = true ->
  begin_line s1 d = begin_line s2 d.
Proof.
  unfold same_line. intros Hsame Hs.
  destruct (TrimRight_crlf_split s1) as (w1 & H1 & Hw1).
  destruct (TrimRight_crlf_split s2) as (w2 & H2 & Hw2).
  rewrite <- Hsame in H2. clear Hsame. revert H1 H2 Hs.
  generalize (TrimRight_crlf s1) as t. intros t -> -> Hs.
  rewrite has_prefix_line_end in Hs; [|repeat constructor | exact Hw1].
  now rewrite !begin_line_line_end.
Qed.

Lemma part_line_same (s1 s2 : bytes) (d : decoder) :
  same_line s1 s2 -> has_prefix (bs "=ypart") s1 = true ->
  part_line s1 d = part_line s2 d.
Proof.
  unfold same_line. intros Hsame Hs.
  destruct (TrimRight_crlf_split s1) as (w1 & H1 & Hw1).
  destruct (TrimRight_crlf_split s2) as (w2 & H2 & Hw2).
  rewrite <- Hsame in H2. clear Hsame. revert H1 H2 Hs.
  generalize (TrimRight_crlf s1) as t. intros t -> -> Hs.
  rewrite has_prefix_line_end in Hs; [|repeat constructor | exact Hw1].
  now rewrite !part_line_line_end.
Qed.

Lemma find_line_same (marker : bytes) (ls1 ls2 : list bytes) :
  Forall (fun c => line_end c = false) marker -> Forall2 same_line ls1 ls2 ->
  match find_line marker ls1, find_line marker ls2 with
  | Some (s1, r1), Some (s2, r2) =>
      same_line s1 s2 /\ Forall2 same_line r1 r2 /\ has_prefix marker s1 = true
  | None, None => True
  | _, _ => False
  end.
Proof.
  intros Hm. induction 1 as [|l1 l2 ls1 ls2 Hl HF IH]; cbn [find_line]; [exact I|].
  rewrite <- (same_line_prefix Hm Hl).
  destruct (has_prefix marker l1) eqn:Hp; [now repeat split | exact IH].
Qed.

Lemma fold_buf (f : decoder -> bytes -> decoder) (tokens : list bytes) :
  (forall d token r, f (set_buf d r) token = set_buf (f d token) r) ->
  forall d r, fold_left f tokens (set_buf d r) = set_buf (fold_left f tokens d) r.
Proof.
  intros Hf. induction tokens as [|token tokens IH]; intros d r; cbn [fold_left];
    [reflexivity|]. now rewrite Hf, IH.
Qed.

Lemma headerField_buf (d : decoder) (token : bytes) (r : Reader) :
  headerField (set_buf d r) token = set_buf (headerField d token) r.
Proof. unfold headerField, headerSwitch. now branches. Qed.

Lemma partHeaderField_buf (d : decoder) (token : bytes) (r : Reader) :
  partHeaderField (set_buf d r) token = set_buf (partHeaderField d token) r.
Proof. unfold partHeaderField, partHeaderSwitch. now branches. Qed.

Lemma begin_line_buf (s : bytes) (d : decoder) (r : Reader) :
  begin_line s (set_buf d r) = set_buf (begin_line s d) r.
Proof.
  unfold begin_line. rewrite <- fold_buf by exact headerField_buf.
  now destruct (SplitN2 _ _) as [|? [|? ?]].
Qed.

Lemma part_line_buf (s : bytes) (d : decoder) (r : Reader) :
  part_line s (set_buf d r) = set_buf (part_line s d) r.
Proof. unfold part_line. now rewrite fold_buf by exact partHeaderField_buf. Qed.

Lemma parseTrailer_loop_buf_blind (tokens : list bytes) : buf_blind (parseTrailer_loop tokens).
Proof.
  induction tokens as [|token tokens IH]; intros d r; cbn [parseTrailer_loop];
    [reflexivity|].
  unfold and_then.
  assert (H : trailerField token (set_buf d r)
              = (fst (trailerField token d), set_buf (snd (trailerField token d)) r)).
  { unfold trailerField, trailerSwitch. change (part (set_buf d r)) with (part d).
    now branches. }
  rewrite H. destruct (trailerField token d) as [[e|] d1]; cbn [fst snd]; [reflexivity|].
  apply IH.
Qed.

Lemma same_line_refl (ls : list bytes) : Forall2 same_line ls ls.
Proof. induction ls; constructor; [reflexivity | assumption]. Qed.

Lemma same_lines_refl (d : decoder) : same_lines d d.
Proof.
  exists (lines (buf d)). split; [apply same_line_refl|].
  now destruct d as [[] ? ? ? ? ? ? ?].
Qed.

Lemma same_lines_unread (d : decoder) (r1 r2 : list bytes) :
  Forall2 same_line r1 r2 ->
  same_lines (set_buf d (unread r1 (buf d))) (set_buf d (unread r2 (buf d))).
Proof. intros H. exists r1. split; [exact H | reflexivity]. Qed.

Lemma and_then_line_end_blind (f g : action) :
  line_end_blind f -> line_end_blind g -> line_end_blind (f >> g).
Proof.
  intros Hf Hg d1 d2 H. unfold and_then. destruct (Hf d1 d2 H) as [He Hd].
  destruct (f d1) as [[e1|] d1'], (f d2) as [[e2|] d2']; cbn [fst snd] in *;
    try discriminate; [now split|]. now apply Hg.
Qed.

Lemma readHeader_line_end_blind : line_end_blind readHeader.
Proof.
  intros d1 d2 (ls & HF & ->). rewrite !readHeader_begin_line.
  change (lines (buf (set_buf d2 (unread ls (buf d2))))) with ls.
  pose proof (@find_line_same (bs "=ybegin") ls (lines (buf d2))
                ltac:(repeat constructor) HF) as Hfind.
  destruct (find_line _ ls) as [[s1 r1]|], (find_line _ (lines (buf d2))) as [[s2 r2]|];
    try easy; cbn [fst snd].
  - destruct Hfind as (Hs & Hr & Hp). split; [reflexivity|].
    change (set_buf (set_buf d2 (unread ls (buf d2)))
              (unread r1 (buf (set_buf d2 (unread ls (buf d2))))))
      with (set_buf d2 (unread r1 (buf d2))).
    rewrite (begin_line_same _ Hs Hp), !begin_line_buf.
    exists r1. now split.
  - split; [reflexivity|]. apply same_lines_refl.
Qed.

Lemma readPartHeader_line_end_blind : line_end_blind readPartHeader.
Proof.
  intros d1 d2 (ls & HF & ->). rewrite !readPartHeader_part_line.
  change (lines (buf (set_buf d2 (unread ls (buf d2))))) with ls.
  pose proof (@find_line_same (bs "=ypart") ls (lines (buf d2))
                ltac:(repeat constructor) HF) as Hfind.
  destruct (find_line _ ls) as [[s1 r1]|], (find_line _ (lines (buf d2))) as [[s2 r2]|];
    try easy; cbn [fst snd].
  - destruct Hfind as (Hs & Hr & Hp). split; [reflexivity|].
    change (set_buf (set_buf d2 (unread ls (buf d2)))
              (unread r1 (buf (set_buf d2 (unread ls (buf d2))))))
      with (set_buf d2 (unread r1 (buf d2))).
    rewrite (part_line_same _ Hs Hp), !part_line_buf.
    exists r1. now split.
  - split; [reflexivity|]. apply same_lines_refl.
Qed.

Lemma readBody_loop_same (ls1 ls2 : list bytes) :
  Forall2 same_line ls1 ls2 ->
  forall d, fst (readBody_loop ls1 d) = fst (readBody_loop ls2 d) /\
            same_lines (snd (readBody_loop ls1 d)) (snd (readBody_loop ls2 d)).
Proof.
  induction 1 as [|l1 l2 ls1 ls2 Hl HF IH]; intros d; cbn [readBody_loop].
  - split; [reflexivity | apply same_lines_refl].
  - unfold same_line in Hl. rewrite Hl.
    destruct (has_prefix _ _); [|apply IH].
    unfold parseTrailer. rewrite !parseTrailer_loop_buf_blind. cbn [fst snd].
    split; [reflexivity|]. exists ls1. now split.
Qed.

Lemma readBody_line_end_blind : line_end_blind readBody.
Proof.
  intros d1 d2 (ls & HF & ->).
  pose (p := set_part (set_awaitingSpecial (set_part d2 (Part.set_Body (part d2) [])) false)
                      (Part.set_crcHash (Part.set_Body (part d2) []) NewIEEE)).
  change (readBody (set_buf d2 (unread ls (buf d2))))
    with (readBody_loop ls (set_buf p (unread ls (buf p)))).
  change (readBody d2) with (readBody_loop (lines (buf d2)) p).
  rewrite readBody_loop_unread. now apply readBody_loop_same.
Qed.

Lemma round_line_end_blind : line_end_blind round.
Proof.
  unfold round, headers. repeat apply and_then_line_end_blind.
  - intros d1 d2 (ls & HF & ->). split; [reflexivity|]. exists ls. now split.
  - exact readHeader_line_end_blind.
  - intros d1 d2 H. pose proof H as (ls & HF & Hd).
    replace (multipart d1) with (multipart d2) by now rewrite Hd.
    destruct (multipart d2); [now apply readPartHeader_line_end_blind | now split].
  - exact readBody_line_end_blind.
  - intros d1 d2 (ls & HF & ->). split; [reflexivity|]. exists ls. now split.
  - intros d1 d2 H. pose proof H as (ls & HF & Hd). split; [now rewrite Hd | exact H].
Qed.

Lemma run_line_end_blind : line_end_blind run.
Proof.
  intros d1 d2 H. unfold run.
  assert (Hlen : length (lines (buf (set_crcHash d1 NewIEEE)))
                 = length (lines (buf (set_crcHash d2 NewIEEE)))).
  { destruct H as (ls & HF & ->). exact (Forall2_length HF). }
  rewrite Hlen. generalize (S (length (lines (buf (set_crcHash d2 NewIEEE))))) as fuel.
  assert (H' : same_lines (set_crcHash d1 NewIEEE) (set_crcHash d2 NewIEEE)).
  { destruct H as (ls & HF & ->). exists ls. now split. }
  revert H'. generalize (set_crcHash d1 NewIEEE) as d1', (set_crcHash d2 NewIEEE) as d2'.
  intros d1' d2' H' fuel. revert d1' d2' H'.
  induction fuel as [|fuel IH]; cbn [run_loop].
  - intros d1' d2' H'. now split.
  - apply and_then_line_end_blind; [exact round_line_end_blind | exact IH].
Qed.

Lemma split_lines_ends (ls : list (bytes * bool)) :
  Forall (fun l => ~ In 10 (fst l)) ls ->
  split_lines (concat (map (fun l => fst l ++ eol (snd l)) ls))
  = (map (fun l => fst l ++ eol (snd l)) ls, []).
Proof.
  induction 1 as [|[l crlf] ls Hl _ IH]; [reflexivity|].
  cbn [map concat fst snd] in *. unfold eol at 1 3.
  rewrite <- !app_assoc, (app_assoc l). cbn [app]. rewrite split_lines_line, IH.
  - cbn [fst snd]. now rewrite <- app_assoc.
  - intros [H|H]%in_app_or; [now apply Hl | now destruct crlf; destruct H].
Qed.

(** X13: [Decode] returns the same for an input whose lines end with CR LF,
    for the same lines ended by LF alone, and for any mix of the two: every
    line is read through [TrimSpace] or [TrimRight], which drop the line
    ends. *)
Theorem Decode_line_ends (ls : list (bytes * bool)) (e : error) :
  Forall (fun l => ~ In 10 (fst l)) ls ->
  Decode {| stream := concat (map (fun l => fst l ++ eol (snd l)) ls); err := e |}
  = Decode {| stream := concat (map (fun l => fst l ++ eol false) ls); err := e |}.
Proof.
  intros Hls.
  assert (Hsim : same_lines
            (decoder.new {| stream := concat (map (fun l => fst l ++ eol (snd l)) ls);
                            err := e |})
            (decoder.new {| stream := concat (map (fun l => fst l ++ eol false) ls);
                            err := e |})).
  { unfold decoder.new, NewReader. cbn [stream err]. rewrite (split_lines_ends Hls).
    assert (Hls' : Forall (fun l : bytes * bool => ~ In 10 (fst l))
                          (map (fun l => (fst l, false)) ls)).
    { apply Forall_map. exact Hls. }
    pose proof (split_lines_ends Hls') as H. rewrite map_map in H. cbn [fst snd] in H.
    unfold bytes in *. rewrite H.
    exists (map (fun l => fst l ++ eol (snd l)) ls). split; [|reflexivity].
    cbn [buf lines]. clear. induction ls as [|[l crlf] ls IH]; constructor; [|exact IH].
    unfold same_line. cbn [fst snd]. rewrite !TrimRight_crlf_app; auto using eol_line_ends. }
  unfold Decode. destruct (run_line_end_blind Hsim) as [He (ls' & _ & Hd)].
  destruct (run _) as [e1 d1], (run _) as [e2 d2]. cbn [fst snd] in *. subst.
  reflexivity.
Qed.

Lemma Decode_line_ends_witness :
  Decode (NewStringReader
            (bs "=ybegin line=128 size=1 name=a" ++ [13; 10] ++ bs "k" ++ [10]
             ++ bs "=yend size=1" ++ [13; 10]))
  = Decode (NewStringReader
              (unlines [bs "=ybegin line=128 size=1 name=a"; bs "k"; bs "=yend size=1"])).
Proof.
  apply (@Decode_line_ends
           [(bs "=ybegin line=128 size=1 name=a", true); (bs "k", false);
            (bs "=yend size=1", true)] EOF).
  repeat constructor; vm_compute; intuition discriminate.
Defined.
